(** * SmartStream AI-training pipeline: feature extraction and label policy

    A shallow embedding of the non-training logic of
    [ai-training/train_real_model.py] and [ai-training/train_silesia.py]:
    byte entropy, the head/mid/tail chunk sampler, the two type-hint
    classifiers, the codec race and the thresholded label decision.

    Conventions of the embedding.
    - Python [bytes] are [list byte]; [len] is [Z.of_nat (List.length _)].
    - Python [int] is [Z].
    - The two float comparisons of the label decision ([x > n * 0.95] and
      [x < n * 0.98]) are modelled bit-exactly in IEEE-754 binary64 with
      the [SpecFloat] operations of the standard library.
    - [math.log] and [math.log10] have no IEEE-specified result; entropy,
      its average and the size logarithm are modelled over the reals [R],
      so the last bits of the binary64 results are outside the model.
      Python's [0] and [0.0] are identified with the real [0].
    - A Python [str] is a list of Unicode code points.  [str.lower] maps
      the ASCII characters itself; what it does to any other character
      is the interpreter's Unicode table, a parameter [U] of everything
      that lower-cases a name.
    - A codec is a function that may fail ([None] stands for a raised
      exception); every invocation is recorded in a call log.
    - [float(n)] and the product are total in the model: beyond the
      binary64 range they give an infinity where Python raises
      [OverflowError]; no file size comes near that range.
    - A directory is the list of names [os.listdir] returns, each with
      what it refers to: a regular file with its bytes, readable or not,
      a directory, or something else.  Whether [print] succeeds and
      whether an output file can be written is asked of a [platform].
      The main loops are folds over such a list that stop at the first
      uncaught exception. *)

From Stdlib Require Import ZArith NArith List Bool Lia String Ascii.
From Stdlib Require Import Strings.Byte.
From Stdlib Require Import Reals Lra.
From Stdlib Require Import Floats.SpecFloat.
From Stdlib Require Import Sorting.Permutation.
Import ListNotations.

Local Open Scope Z_scope.

(* ================================================================== *)
(** * Definitions *)
(* ================================================================== *)

(** ** Python floats (binary64) *)

Module PyFloat.

Definition prec : Z := 53.
Definition emax : Z := 1024.

Definition float := spec_float.

(** [float(n)] for a Python int: correctly rounded conversion. *)
Definition of_int (n : Z) : float := binary_normalize prec emax n 0 false.

(** Float multiplication, round to nearest even. *)
Definition mul (x y : float) : float := SFmul prec emax x y.

(** The literal [0.95], i.e. [0x1.e666666666666p-1]. *)
Definition lit_0_95 : float := S754_finite false 8556839292003942 (-53).

(** The literal [0.98], i.e. [0x1.f5c28f5c28f5cp-1]. *)
Definition lit_0_98 : float := S754_finite false 8827055269646172 (-53).

(** [n * x] with [n] an int and [x] a float: the int is converted first. *)
Definition int_mul (n : Z) (x : float) : float := mul (of_int n) x.

(** Exact comparison of an int with a float, as Python performs it
    (no conversion of the int, so no rounding).  [None] for NaN. *)
Definition int_compare (n : Z) (x : float) : option comparison :=
  match x with
  | S754_nan => None
  | S754_infinity s => Some (if s then Gt else Lt)
  | S754_zero _ => Some (n ?= 0)
  | S754_finite s m e =>
      let v := if s then Z.neg m else Z.pos m in
      Some (match e with
            | Z0 => n ?= v
            | Zpos p => n ?= v * 2 ^ Zpos p
            | Zneg p => n * 2 ^ Zpos p ?= v
            end)
  end.

(** [n > x] *)
Definition int_gt (n : Z) (x : float) : bool :=
  match int_compare n x with Some Gt => true | _ => false end.

(** [n < x] *)
Definition int_lt (n : Z) (x : float) : bool :=
  match int_compare n x with Some Lt => true | _ => false end.

End PyFloat.

(** ** Label policy *)

(** Label encoding returned by both ground-truth functions. *)
Definition ALGO_A : Z := 0.  (* Brotli *)
Definition ALGO_B : Z := 1.  (* Zstd *)
Definition NO_COMPRESSION : Z := 2.  (* None *)

(** The decision shared by [get_best_algo] (lines 39-46) and
    [get_best_label] (lines 128-136). *)
Definition decide (original_size brotli_size zstd_size : Z) : Z :=
  let min_size := Z.min brotli_size zstd_size in
  if PyFloat.int_gt min_size (PyFloat.int_mul original_size PyFloat.lit_0_95)
  then 2
  else if PyFloat.int_lt brotli_size (PyFloat.int_mul zstd_size PyFloat.lit_0_98)
       then 0
       else 1.

(** ** Entropy estimator *)

Local Open Scope R_scope.

(** [math.log(x, base)] *)
Definition log (x base : R) : R := ln x / ln base.

(** [math.log10(x)] *)
Definition log10 (x : R) : R := ln x / ln 10.

(** [len(data)] *)
Definition len {A : Type} (data : list A) : Z := Z.of_nat (List.length data).

(** [data.count(x)] for an int [x]: the number of bytes of value [x]. *)
Definition count (data : list byte) (x : nat) : nat :=
  count_occ Nat.eq_dec (map Byte.to_nat data) x.

(** [sum(xs)] *)
Definition sum (xs : list R) : R := fold_left Rplus xs 0.

(** One iteration of the loop [for x in range(256)] of [get_entropy]. *)
Definition entropy_step (data : list byte) (entropy : R) (x : nat) : R :=
  let p_x := INR (count data x) / INR (List.length data) in
  if Rlt_dec 0 p_x then entropy + - p_x * log p_x 2 else entropy.

(** [get_entropy] of train_real_model.py; [calculate_entropy] of
    train_silesia.py has the same body. *)
Definition get_entropy (data : list byte) : R :=
  match data with
  | [] => 0
  | _ => fold_left (entropy_step data) (seq 0 256) 0
  end.

Definition calculate_entropy (data : list byte) : R :=
  match data with
  | [] => 0
  | _ => fold_left (entropy_step data) (seq 0 256) 0
  end.

(** Shannon entropy as the specification words it: the 256-bin histogram,
    the bin probabilities, and minus the sum of [p * log2 p] over the bins
    with [p > 0]; [0] for the empty chunk by convention. *)
Definition histogram (data : list byte) : list nat :=
  map (count data) (seq 0 256).

Definition positive_bin (p : R) : bool := if Rlt_dec 0 p then true else false.

Definition shannon_entropy (data : list byte) : R :=
  match data with
  | [] => 0
  | _ =>
      let probabilities := map (fun h => INR h / INR (List.length data)) (histogram data) in
      - fold_right Rplus 0
          (map (fun p => p * (ln p / ln 2)) (filter positive_bin probabilities))
  end.

Local Close Scope R_scope.

(** ** Chunk sampler: reading a file through a handle *)

Module FileIO.

(** An open binary file: its content and the current position. *)
Record handle := { content : list byte; position : nat }.

(** A file operation either fails (an exception) or returns a value and
    the handle's new state. *)
Definition io (A : Type) := handle -> option (A * handle).

Definition ret {A} (a : A) : io A := fun h => Some (a, h).

Definition bind {A B} (m : io A) (k : A -> io B) : io B :=
  fun h => match m h with
           | Some (a, h') => k a h'
           | None => None
           end.

(** [f.read(n)]: at most [n] bytes from the current position, which
    advances by the number of bytes read; past the end the result is
    empty. *)
Definition read (n : Z) : io (list byte) :=
  fun h =>
    let c := firstn (Z.to_nat n) (skipn (position h) (content h)) in
    Some (c, {| content := content h; position := position h + List.length c |}).

(** [f.seek(offset)]: raises on a negative offset; any offset at or past
    the end is accepted. *)
Definition seek (offset : Z) : io unit :=
  fun h =>
    if offset <? 0 then None
    else Some (tt, {| content := content h; position := Z.to_nat offset |}).

(** [with open(path, 'rb') as f: body] *)
Definition with_open {A} (data : list byte) (body : io A) : option A :=
  match body {| content := data; position := 0 |} with
  | Some (a, _) => Some a
  | None => None
  end.

End FileIO.

Notation "x <- m ;; k" := (FileIO.bind m (fun x => k))
  (at level 61, m at next level, right associativity).

Definition CHUNK_SIZE : Z := 16384.

(** The three reads of both variants (train_real_model.py lines 63-68,
    train_silesia.py lines 83-89): head, middle, tail. *)
Definition read_chunks (file_size : Z) : FileIO.io (list (list byte)) :=
  head <- FileIO.read CHUNK_SIZE ;;
  _ <- FileIO.seek (Z.max 0 (file_size / 2)) ;;
  mid <- FileIO.read CHUNK_SIZE ;;
  _ <- FileIO.seek (Z.max 0 (file_size - CHUNK_SIZE)) ;;
  tail <- FileIO.read CHUNK_SIZE ;;
  FileIO.ret [head; mid; tail].

(** [os.path.getsize(path)] followed by the three reads. *)
Definition chunks (data : list byte) : option (list (list byte)) :=
  FileIO.with_open data (read_chunks (len data)).

(** ** Average entropy *)

(** train_real_model.py lines 71-72: every chunk counts. *)
Definition avg_entropy_real (chunks : list (list byte)) : R :=
  let entropies := map get_entropy chunks in
  (sum entropies / INR (List.length entropies))%R.

(** [if c] on a bytes object *)
Definition nonempty (c : list byte) : bool :=
  match c with [] => false | _ => true end.

(** train_silesia.py lines 92-93: empty chunks are filtered out. *)
Definition avg_entropy_silesia (chunks : list (list byte)) : R :=
  let entropies := map calculate_entropy (filter nonempty chunks) in
  match entropies with
  | [] => 0%R
  | _ => (sum entropies / INR (List.length entropies))%R
  end.

(** The average as the specification words it: the arithmetic mean of the
    entropies of the non-empty chunks, [0] when there is none. *)
Definition mean_entropy_of_nonempty (chunks : list (list byte)) : R :=
  let kept := filter nonempty chunks in
  match kept with
  | [] => 0%R
  | _ => (fold_right Rplus 0 (map shannon_entropy kept) / INR (List.length kept))%R
  end.

(** ** Python strings *)

(** A Python [str] is a sequence of Unicode code points. *)
Definition code_point := N.
Definition str := list code_point.

(** [ord(c)] for a character that the sources write in a literal. *)
Definition ord (c : ascii) : code_point := N_of_ascii c.

(** A string literal of the sources, and a list of them.  A literal is
    accepted wherever a list of code points is expected. *)
Definition literal (s : string) : list code_point := map ord (list_ascii_of_string s).
Definition literals (xs : list string) : list str := map literal xs.

Coercion ord : ascii >-> code_point.
Coercion literal : string >-> list.

(** What [str.lower] puts in the place of the non-ASCII character at
    position [i] of [s]: its full lower-case mapping in the Unicode
    database of the interpreter, one to three code points, where U+03A3
    depends on the characters around it (CPython [lower_ucs4]).  The
    table belongs to the interpreter, not to the program, and is a
    parameter of the embedding. *)
Definition unicode := str -> nat -> str.

Local Open Scope N_scope.

Definition is_ascii (c : code_point) : bool := c <? 128.

(** [c.lower()] on an ASCII character. *)
Definition ascii_lower (c : code_point) : code_point :=
  if (65 <=? c) && (c <=? 90) then c + 32 else c.

(** [s.lower()], from position [i] on. *)
Fixpoint lower_from (U : unicode) (s : str) (i : nat) (rest : str) : str :=
  match rest with
  | [] => []
  | c :: rest' =>
      (if is_ascii c then [ascii_lower c] else U s i) ++ lower_from U s (S i) rest'
  end.

(** [s.lower()] *)
Definition lower (U : unicode) (s : str) : str := lower_from U s 0 s.

(** A fragment of the Unicode table, for the examples: U+212A KELVIN SIGN
    becomes [k], U+0130 becomes [i] followed by U+0307, and the capital
    letters U+00C0 to U+00DE other than U+00D7 move up by 32; the other
    characters of the fragment are unchanged. *)
Definition KELVIN_SIGN : code_point := 8490.

Definition unicode_fragment : unicode := fun s i =>
  match nth_error s i with
  | Some c =>
      if c =? KELVIN_SIGN then [107]
      else if c =? 304 then [105; 775]
      else if (192 <=? c) && (c <=? 222) && negb (c =? 215) then [c + 32]
      else [c]
  | None => []
  end.

Local Close Scope N_scope.

(** [s.split(sep)] for a one-character separator: the result is never
    empty, and has one more element than [s] has separators. *)
Fixpoint split (sep : code_point) (s : str) : list str :=
  match s with
  | [] => [[]]
  | c :: s' =>
      if N.eqb c sep then [] :: split sep s'
      else match split sep s' with
           | [] => [[c]]
           | w :: ws => (c :: w) :: ws
           end
  end.

(** [sep in s]: the string contains the character. *)
Fixpoint has_char (sep : code_point) (s : str) : bool :=
  match s with
  | [] => false
  | c :: s' => if N.eqb c sep then true else has_char sep s'
  end.

Arguments split sep%_char s.
Arguments has_char sep%_char s.

(** [xs[-1]] on a list of strings (the lists here are never empty). *)
Definition last_item (xs : list str) : str := last xs [].

(** [a == b] on strings. *)
Fixpoint str_eqb (a b : str) : bool :=
  match a, b with
  | [], [] => true
  | x :: a', y :: b' => N.eqb x y && str_eqb a' b'
  | _, _ => false
  end.

(** [x in xs] for a list of string literals. *)
Definition member (x : str) (xs : list str) : bool := existsb (str_eqb x) xs.

(** [s.endswith(suffix)] *)
Definition endswith (s suffix : str) : bool :=
  let n := List.length s in
  let k := List.length suffix in
  if (k <=? n)%nat then str_eqb (skipn (n - k) s) suffix else false.

Local Open Scope string_scope.

(** [os.path.basename(path)]: what follows the last slash. *)
Definition basename (path : str) : str := last_item (split "/" path).

(** [s.startswith(c)] for one character. *)
Definition startswith (s : str) (c : code_point) : bool :=
  match s with
  | x :: _ => N.eqb x c
  | [] => false
  end.

Arguments startswith s c%_char.

(** [os.path.join(a, b)] *)
Definition path_join (a b : str) : str :=
  if startswith b "/" then b
  else if str_eqb a "" || endswith a "/" then (a ++ b)%list
  else (a ++ "/" ++ b)%list.

(** ** Type-hint classifiers *)

Definition GENERIC : Z := 0.
Definition TEXT : Z := 1.
Definition MEDIA : Z := 2.

(** train_real_model.py line 75 *)
Definition extension (U : unicode) (filename : str) : str :=
  lower U (last_item (split "." filename)).

(** train_real_model.py lines 75-78: the hint by extension. *)
Definition hint_real (U : unicode) (filename : str) : Z :=
  let ext := extension U filename in
  let hint := 0%Z in
  let hint := if member ext (literals ["txt"; "csv"; "js"; "md"]) then 1%Z else hint in
  let hint := if member ext (literals ["jpg"; "mp4"; "zip"]) then 2%Z else hint in
  hint.

(** train_silesia.py lines 100-103: the hint by base name. *)
Definition hint_silesia (U : unicode) (file_path : str) : Z :=
  let name := lower U (basename file_path) in
  let hint := 0%Z in
  let hint := if member name (literals ["dickens"; "samba"; "webster"; "xml"])
              then 1%Z else hint in
  let hint := if endswith name ".zst" || member name (literals ["mr"]) then 2%Z else hint in
  hint.

Local Close Scope string_scope.

(** ** Feature builder *)

(** train_real_model.py lines 60-80: the feature row of one directory
    entry; [None] when a file operation raises. *)
Definition features_real (U : unicode) (filename : str) (data : list byte)
  : option (list R) :=
  let file_size := len data in
  match chunks data with
  | Some cs =>
      let avg_entropy := avg_entropy_real cs in
      Some [avg_entropy; log10 (IZR (file_size + 1)); IZR (hint_real U filename)]
  | None => None
  end.

(** train_silesia.py [extract_features]. *)
Definition extract_features (U : unicode) (file_path : str) (data : list byte)
  : option (list R) :=
  let file_size := len data in
  match chunks data with
  | Some cs =>
      let avg_entropy := avg_entropy_silesia cs in
      let size_log := log10 (IZR (file_size + 1)) in
      Some [avg_entropy; size_log; IZR (hint_silesia U file_path)]
  | None => None
  end.

(** ** Algorithm racer *)

Module Racer.

(** The two compressors; [None] stands for a raised exception.  Brotli
    takes its quality, Zstd its level. *)
Record codecs := {
  brotli_compress : Z -> list byte -> option (list byte);
  zstd_compress : Z -> list byte -> option (list byte)
}.

(** [brotli.compress(data)] without a quality runs at the library's
    default quality. *)
Definition BROTLI_DEFAULT_QUALITY : Z := 11.

Inductive call := CallBrotli (quality : Z) | CallZstd (level : Z).

Inductive exn := BrotliError | ZstdError.

Inductive result (A : Type) := Ok (a : A) | Raised (e : exn).
Arguments Ok {A} a.
Arguments Raised {A} e.

(** A computation that may raise and that appends to the call log. *)
Definition action (A : Type) := list call -> result A * list call.

Definition ret {A} (a : A) : action A := fun log => (Ok a, log).

Definition bind {A B} (c : action A) (k : A -> action B) : action B :=
  fun log => match c log with
             | (Ok a, log') => k a log'
             | (Raised e, log') => (Raised e, log')
             end.

(** [try: body  except: handler] with a bare [except]. *)
Definition try_except {A} (body handler : action A) : action A :=
  fun log => match body log with
             | (Ok a, log') => (Ok a, log')
             | (Raised _, log') => handler log'
             end.

Definition brotli (cs : codecs) (quality : Z) (data : list byte) : action (list byte) :=
  fun log =>
    (match brotli_compress cs quality data with
     | Some out => Ok out
     | None => Raised BrotliError
     end, log ++ [CallBrotli quality]).

Definition zstd (cs : codecs) (level : Z) (data : list byte) : action (list byte) :=
  fun log =>
    (match zstd_compress cs level data with
     | Some out => Ok out
     | None => Raised ZstdError
     end, log ++ [CallZstd level]).

(** Run from an empty log. *)
Definition run {A} (c : action A) : result A * list call := c [].

End Racer.

Import Racer.

Notation "x <~ c ;; k" := (Racer.bind c (fun x => k))
  (at level 61, c at next level, right associativity).

(** train_real_model.py [get_best_algo], on the bytes read from the file. *)
Definition get_best_algo (cs : codecs) (data : list byte) : action Z :=
  let original_size := len data in
  if original_size =? 0 then ret 2
  else
    brotli_size <~ try_except
                     (out <~ brotli cs BROTLI_DEFAULT_QUALITY data ;; ret (len out))
                     (ret original_size) ;;
    out <~ zstd cs 3 data ;;
    let zstd_size := len out in
    ret (decide original_size brotli_size zstd_size).

(** train_silesia.py [get_best_label], on the bytes read from the file. *)
Definition get_best_label (cs : codecs) (data : list byte) : action Z :=
  let original := len data in
  if original =? 0 then ret 2
  else
    brotli_size <~ try_except
                     (out <~ brotli cs 4 data ;; ret (len out))
                     (ret original) ;;
    out <~ zstd cs 3 data ;;
    let zstd_size := len out in
    ret (decide original brotli_size zstd_size).

(** The size the specification assigns to a codec run: the output size, or
    the original size when the codec failed. *)
Definition size_or_original (data : list byte) (out : option (list byte)) : Z :=
  match out with
  | Some c => len c
  | None => len data
  end.

(** ** Test data and auxiliary notions used by the statements below *)

(** The chunk holding each byte value once, in increasing order. *)
Definition all_bytes : list byte :=
  map (fun n => match Byte.of_nat n with Some b => b | None => x00 end) (seq 0 256).

(** Codecs that return their input unchanged. *)
Definition identity_codecs : codecs :=
  {| brotli_compress := fun _ data => Some data;
     zstd_compress := fun _ data => Some data |}.

(** Codecs where Brotli fails on every input and Zstd halves the input. *)
Definition brotli_failing_codecs : codecs :=
  {| brotli_compress := fun _ _ => None;
     zstd_compress := fun _ data => Some (firstn (List.length data / 2) data) |}.

(** Codecs where Zstd fails on every input. *)
Definition zstd_failing_codecs : codecs :=
  {| brotli_compress := fun _ data => Some data;
     zstd_compress := fun _ _ => None |}.

(** Codecs where Brotli's output depends on the quality: a quarter of the
    input at quality 11, half of it otherwise; Zstd gives half of it. *)
Definition quality_sensitive_codecs : codecs :=
  {| brotli_compress := fun quality data =>
       if quality =? 11 then Some (firstn (List.length data / 4) data)
       else Some (firstn (List.length data / 2) data);
     zstd_compress := fun _ data => Some (firstn (List.length data / 2) data) |}.

(** ** Statements of the specification that the code does not satisfy *)

(** C2, as the claim states it.  Each codec's failure is reported as the
    original size and neither failure reaches the caller: on every
    non-empty input the race returns the decision on the two reported
    sizes. *)
Definition codec_isolation_as_stated : Prop :=
  forall (cs : codecs) (data : list byte),
    data <> [] ->
    fst (run (get_best_algo cs data)) =
      Ok (decide (len data)
            (size_or_original data (brotli_compress cs BROTLI_DEFAULT_QUALITY data))
            (size_or_original data (zstd_compress cs 3 data))) /\
    fst (run (get_best_label cs data)) =
      Ok (decide (len data)
            (size_or_original data (brotli_compress cs 4 data))
            (size_or_original data (zstd_compress cs 3 data))).

(** C9, as the claim states it.  The two ground-truth functions return
    the same label on every file content. *)
Definition variants_equal_as_stated : Prop :=
  forall (cs : codecs) (data : list byte),
    fst (run (get_best_algo cs data)) = fst (run (get_best_label cs data)).

(** C6, as the claim states it.  On a file shorter than the window every
    chunk is the whole file. *)
Definition small_file_chunks_as_stated : Prop :=
  forall data : list byte,
    0 < len data < CHUNK_SIZE -> chunks data = Some [data; data; data].

(** C7, as the claim states it.  One rule set: the classifier [hint]
    follows the extension tables and the base-name tables alike. *)
Definition type_hint_rules_as_stated (hint : unicode -> str -> Z) : Prop :=
  forall (U : unicode) (f : str),
    (In (extension U f) (literals ["txt"; "csv"; "js"; "md"]%string) -> hint U f = TEXT) /\
    (In (extension U f) (literals ["jpg"; "mp4"; "zip"]%string) -> hint U f = MEDIA) /\
    (In (lower U (basename f)) (literals ["dickens"; "samba"; "webster"; "xml"]%string) ->
     hint U f = TEXT) /\
    (endswith (lower U (basename f)) ".zst"%string = true \/
     lower U (basename f) = "mr"%string -> hint U f = MEDIA).

(** Per-bin probability and per-bin entropy term of [get_entropy]. *)
Definition prob (data : list byte) (x : nat) : R :=
  (INR (count data x) / INR (List.length data))%R.

Definition term (data : list byte) (x : nat) : R :=
  if Rlt_dec 0 (prob data x) then (- prob data x * log (prob data x) 2)%R else 0%R.

(** The round and sticky bits after [k] one-bit right shifts of [m]. *)
Definition round_bit (m : Z) (k : nat) : bool :=
  match k with O => false | S j => Z.odd (m / 2 ^ Z.of_nat j) end.

Definition sticky_bit (m : Z) (k : nat) : bool :=
  match k with O => false | S j => negb (m mod 2 ^ Z.of_nat j =? 0) end.

Abbreviation rsum xs := (fold_right Rplus 0%R xs).

(** ** Directory scans: the main loops and the synthetic samples *)

(** What a name in a directory refers to: a regular file, with its bytes
    and whether this process may read it; a directory; or something else
    (a dangling link, a socket), which [os.path] takes for neither and on
    which [open] raises. *)
Inductive entry :=
| RegularFile (readable : bool) (data : list byte)
| Directory
| Other.

(** [os.listdir(d)] together with what each name refers to. *)
Definition listing := list (str * entry).

(** [os.path.isfile] and [os.path.isdir] *)
Definition isfile (e : entry) : bool :=
  match e with RegularFile _ _ => true | _ => false end.

Definition isdir (e : entry) : bool :=
  match e with Directory => true | _ => false end.

(** [open(path, 'rb')] and the reads that follow: the bytes of a readable
    regular file; an exception ([None]) on anything else. *)
Definition open_rb (e : entry) : option (list byte) :=
  match e with
  | RegularFile true data => Some data
  | _ => None
  end.

Definition opens (e : entry) : bool :=
  match open_rb e with Some _ => true | None => false end.

Definition unreadable_file (e : entry) : bool :=
  match e with RegularFile false _ => true | _ => false end.

(** What the loops ask of the platform besides reading: whether [print]
    succeeds on a line that shows the given text (it raises
    [UnicodeEncodeError] when [sys.stdout] cannot encode it), and whether
    a file of the given name can be created and written in the extra
    directory. *)
Record platform := {
  print_ok : str -> bool;
  create_ok : str -> bool
}.

(** A platform on which printing and writing always succeed. *)
Definition permissive : platform :=
  {| print_ok := fun _ => true; create_ok := fun _ => true |}.

(** [xs[i]] on a Python list: negative indices count from the end, and an
    index out of range raises ([None]). *)
Definition py_index {A : Type} (xs : list A) (i : Z) : option A :=
  let n := len xs in
  if (0 <=? i) && (i <? n) then nth_error xs (Z.to_nat i)
  else if (- n <=? i) && (i <? 0) then nth_error xs (Z.to_nat (n + i))
  else None.

(** The exceptions that can end a scan. *)
Inductive scan_error :=
| FileError                 (* a file operation raised *)
| CodecError (e : exn)      (* a codec raised and nothing caught it *)
| IndexError                (* a list index was out of range *)
| PrintError.               (* [print] raised *)

(** The accumulators of a main loop, the winner names it prints, and the
    codec calls made so far. *)
Record scan_state := {
  features : list (list R);
  labels : list Z;
  winners : list str;
  calls : list call
}.

Definition empty_scan : scan_state :=
  {| features := []; labels := []; winners := []; calls := [] |}.

(** [for x in xs: body], where the body may raise. *)
Fixpoint for_each {S A : Type} (body : S -> A -> scan_error + S)
    (xs : list A) (st : S) : scan_error + S :=
  match xs with
  | [] => inr st
  | x :: xs' =>
      match body st x with
      | inl e => inl e
      | inr st' => for_each body xs' st'
      end
  end.

Definition ALGO_NAMES : list str := literals ["Brotli"; "Zstd"; "None"]%string.

(** train_real_model.py lines 54-87: the body of the main loop. *)
Definition scan_step_real (P : platform) (U : unicode) (cs : codecs)
    (st : scan_state) (e : str * entry) : scan_error + scan_state :=
  let filename := fst e in
  if negb (isfile (snd e)) then inr st
  else
    match open_rb (snd e) with
    | None => inl FileError
    | Some data =>
        match features_real U filename data with
        | None => inl FileError
        | Some row =>
            let features1 := features st ++ [row] in
            match get_best_algo cs data (calls st) with
            | (Raised x, _) => inl (CodecError x)
            | (Ok best_algo, calls1) =>
                let labels1 := labels st ++ [best_algo] in
                match py_index ALGO_NAMES best_algo with
                | None => inl IndexError
                | Some algo_name =>
                    if print_ok P filename
                    then inr {| features := features1; labels := labels1;
                                winners := winners st ++ [algo_name];
                                calls := calls1 |}
                    else inl PrintError
                end
            end
        end
    end.

(** train_real_model.py lines 49-87: the main loop over the listing of
    the data set. *)
Definition scan_real (P : platform) (U : unicode) (cs : codecs) (dataset : listing)
  : scan_error + scan_state :=
  for_each (scan_step_real P U cs) dataset empty_scan.

(** train_silesia.py lines 50-63: the loop of [generate_compressed_samples]
    over the listing of the download directory.  The state is the list
    of files written to the extra directory and the codec calls made. *)
Definition generate_step (P : platform) (cs : codecs)
    (st : list (str * list byte) * list call) (e : str * entry)
  : scan_error + (list (str * list byte) * list call) :=
  let filename := fst e in
  if isdir (snd e) then inr st
  else
    match open_rb (snd e) with
    | None => inl FileError
    | Some data =>
        match zstd cs 3 data (snd st) with
        | (Raised x, _) => inl (CodecError x)
        | (Ok compressed_data, calls1) =>
            let new_name := (filename ++ ".zst"%string)%list in
            if create_ok P new_name
            then inr (fst st ++ [(new_name, compressed_data)], calls1)
            else inl FileError
        end
    end.

Definition generate_compressed_samples (P : platform) (cs : codecs)
    (download_dir : listing) : scan_error + (list (str * list byte) * list call) :=
  for_each (generate_step P cs) download_dir ([], []).

(** train_silesia.py lines 150-159 (originals, [skip_directories = true])
    and lines 163-171 (synthetic files, no directory test): the body of a
    scanning loop of the main program. *)
Definition scan_step_silesia (P : platform) (U : unicode) (cs : codecs) (dir : str)
    (skip_directories : bool) (st : scan_state) (e : str * entry)
  : scan_error + scan_state :=
  let filename := fst e in
  let path := path_join dir filename in
  if skip_directories && isdir (snd e) then inr st
  else
    match open_rb (snd e) with
    | None => inl FileError
    | Some data =>
        match extract_features U path data with
        | None => inl FileError
        | Some feats =>
            match get_best_label cs data (calls st) with
            | (Raised x, _) => inl (CodecError x)
            | (Ok label, calls1) =>
                match py_index ALGO_NAMES label with
                | None => inl IndexError
                | Some name =>
                    if print_ok P (firstn 10 filename)
                    then inr {| features := features st ++ [feats];
                                labels := labels st ++ [label];
                                winners := winners st ++ [name];
                                calls := calls1 |}
                    else inl PrintError
                end
            end
        end
    end.

(** train_silesia.py lines 144-171: both scanning loops, over the listing
    of the download directory and over the listing of the extra
    directory. *)
Definition scan_silesia (P : platform) (U : unicode) (cs : codecs)
    (download_dir_path : str) (download_dir synthetic_dir : listing)
  : scan_error + scan_state :=
  match for_each (scan_step_silesia P U cs download_dir_path true)
          download_dir empty_scan with
  | inl e => inl e
  | inr st =>
      for_each
        (scan_step_silesia P U cs
           (path_join download_dir_path "synthetic_compressed"%string) false)
        synthetic_dir st
  end.

(** The regular files of a listing, in order. *)
Definition regular_files (l : listing) : list (str * list byte) :=
  flat_map (fun e => match snd e with
                     | RegularFile _ data => [(fst e, data)]
                     | _ => []
                     end) l.

(** The codec calls of one race at the given Brotli quality: none on an
    empty file. *)
Definition race_calls (quality : Z) (data : list byte) : list call :=
  match data with
  | [] => []
  | _ => [CallBrotli quality; CallZstd 3]
  end.

(* ================================================================== *)
(** * Supporting lemmas *)
(* ================================================================== *)

Section Binary64Rounding.

Local Open Scope Z_scope.

Lemma digits2_pos_bounds (p : positive) :
  2 ^ Z.pos (digits2_pos p) <= 2 * Z.pos p < 2 * 2 ^ Z.pos (digits2_pos p).
Proof.
  induction p as [p IH | p IH |]; cbn [digits2_pos].
  - rewrite Pos2Z.inj_succ, Z.pow_succ_r by lia. lia.
  - rewrite Pos2Z.inj_succ, Z.pow_succ_r by lia. lia.
  - cbn. lia.
Qed.

Lemma digits2_pos_unique (p : positive) (d : Z) :
  2 ^ d <= 2 * Z.pos p < 2 * 2 ^ d -> 0 <= d -> Z.pos (digits2_pos p) = d.
Proof.
  intros H Hd. pose proof (digits2_pos_bounds p) as B.
  destruct (Z.lt_trichotomy (Z.pos (digits2_pos p)) d) as [L | [E | G]]; [ | exact E | ].
  - exfalso. assert (2 * 2 ^ Z.pos (digits2_pos p) <= 2 ^ d).
    { rewrite <- Z.pow_succ_r by lia. apply Z.pow_le_mono_r; lia. }
    lia.
  - exfalso. assert (2 * 2 ^ d <= 2 ^ Z.pos (digits2_pos p)).
    { rewrite <- Z.pow_succ_r by lia. apply Z.pow_le_mono_r; lia. }
    lia.
Qed.

Lemma iter_pos_nat {A} (f : A -> A) (p : positive) (x : A) :
  iter_pos f p x = Nat.iter (Pos.to_nat p) f x.
Proof.
  revert x. induction p as [p IH | p IH |]; intros x; cbn [iter_pos].
  - rewrite !IH, Pos2Nat.inj_xI. 
    replace (S (2 * Pos.to_nat p)) with (Pos.to_nat p + Pos.to_nat p + 1)%nat by lia.
    rewrite !Nat.iter_add. reflexivity.
  - rewrite !IH, Pos2Nat.inj_xO.
    replace (2 * Pos.to_nat p)%nat with (Pos.to_nat p + Pos.to_nat p)%nat by lia.
    rewrite Nat.iter_add. reflexivity.
  - reflexivity.
Qed.

Lemma shr_1_nonneg (m : Z) (r s : bool) :
  0 <= m ->
  shr_1 {| shr_m := m; shr_r := r; shr_s := s |} =
  {| shr_m := m / 2; shr_r := Z.odd m; shr_s := r || s |}.
Proof.
  intros Hm. destruct m as [ | p | p ]; [ reflexivity | | lia ].
  destruct p as [p | p | ]; cbn [shr_1 Z.odd].
  - f_equal. rewrite Pos2Z.inj_xI. apply Z.div_unique with (r := 1); lia.
  - f_equal. rewrite Pos2Z.inj_xO. apply Z.div_unique with (r := 0); lia.
  - reflexivity.
Qed.

Lemma iter_shr_1 (m : Z) (k : nat) :
  0 <= m ->
  Nat.iter k shr_1 {| shr_m := m; shr_r := false; shr_s := false |} =
  {| shr_m := m / 2 ^ Z.of_nat k; shr_r := round_bit m k; shr_s := sticky_bit m k |}.
Proof.
  intros Hm. induction k as [ | k IH].
  - cbn. now rewrite Z.div_1_r.
  - rewrite Nat.iter_succ, IH, shr_1_nonneg by (apply Z.div_pos; lia).
    f_equal.
    + rewrite Nat2Z.inj_succ, Z.pow_succ_r, Z.mul_comm, <- Z.div_div by lia. reflexivity.
    + destruct k as [ | j]; [ cbn; now rewrite Z.mod_1_r | ].
      cbn [round_bit sticky_bit].
      rewrite Nat2Z.inj_succ, Z.pow_succ_r by lia.
      set (t := 2 ^ Z.of_nat j). assert (0 < t) by (apply Z.pow_pos_nonneg; lia).
      pose proof (Z.div_mod m t ltac:(lia)) as E1.
      pose proof (Z.mod_pos_bound m t ltac:(lia)) as B1.
      pose proof (Z.div_mod (m / t) 2 ltac:(lia)) as E2.
      pose proof (Z.mod_pos_bound (m / t) 2 ltac:(lia)) as B2.
      assert (E3 : m mod (2 * t) = t * ((m / t) mod 2) + m mod t).
      { symmetry. apply Z.mod_unique with (q := m / t / 2); [ left; nia | nia ]. }
      rewrite E3. rewrite Zodd_mod.
      destruct (Z.eqb_spec ((m / t) mod 2) 1) as [O1 | O1];
        destruct (Z.eqb_spec (m mod t) 0) as [Z1 | Z1]; cbn.
      all: symmetry; try (apply negb_true_iff, Z.eqb_neq; nia).
      apply negb_false_iff, Z.eqb_eq; nia.
Qed.

Lemma round_bit_spec (m : Z) (j : nat) :
  0 <= m ->
  let t := 2 ^ Z.of_nat j in
  (round_bit m (S j) = true <-> t <= m mod (2 * t)) /\
  (sticky_bit m (S j) = false -> m mod (2 * t) = 0 \/ m mod (2 * t) = t).
Proof.
  intros Hm t. cbn [round_bit sticky_bit]. fold t.
  assert (0 < t) by (apply Z.pow_pos_nonneg; lia).
  pose proof (Z.div_mod m t ltac:(lia)) as E1.
  pose proof (Z.mod_pos_bound m t ltac:(lia)) as B1.
  pose proof (Z.mod_pos_bound (m / t) 2 ltac:(lia)) as B2.
  pose proof (Z.div_mod (m / t) 2 ltac:(lia)) as E2.
  assert (E3 : m mod (2 * t) = t * ((m / t) mod 2) + m mod t).
  { symmetry. apply Z.mod_unique with (q := m / t / 2); [ left; nia | nia ]. }
  rewrite E3, Zodd_mod. split.
  - destruct (Z.eqb_spec ((m / t) mod 2) 1) as [O1 | O1]; split; intros; try easy; nia.
  - intros S. apply negb_false_iff, Z.eqb_eq in S. rewrite S. 
    assert ((m / t) mod 2 = 0 \/ (m / t) mod 2 = 1) as [-> | ->] by lia; lia.
Qed.

(** Shifting right by [p] bits and rounding to nearest even stays within
    half a unit of the shifted-out weight. *)
Lemma shr_round_nearest (m e : Z) (p : positive) :
  0 <= m ->
  let mrs := fst (shr {| shr_m := m; shr_r := false; shr_s := false |} e (Z.pos p)) in
  let m1 := round_nearest_even (shr_m mrs) (loc_of_shr_record mrs) in
  snd (shr {| shr_m := m; shr_r := false; shr_s := false |} e (Z.pos p)) = e + Z.pos p /\
  2 ^ Z.pos p * (2 * m1 - 1) <= 2 * m <= 2 ^ Z.pos p * (2 * m1 + 1) /\
  m / 2 ^ Z.pos p <= m1 <= m / 2 ^ Z.pos p + 1.
Proof.
  intros Hm. cbn [shr fst snd]. rewrite iter_pos_nat, iter_shr_1 by assumption.
  rewrite positive_nat_Z.
  destruct (Pos2Nat.is_succ p) as [j Ej]. rewrite Ej.
  assert (Ep : Z.pos p = Z.succ (Z.of_nat j)) by lia.
  cbn zeta. split; [ reflexivity | ].
  destruct (round_bit_spec m j Hm) as [HR HS].
  rewrite Ep, Z.pow_succ_r by lia.
  set (t := 2 ^ Z.of_nat j) in *. assert (0 < t) by (apply Z.pow_pos_nonneg; lia).
  pose proof (Z.div_mod m (2 * t) ltac:(lia)) as E1.
  pose proof (Z.mod_pos_bound m (2 * t) ltac:(lia)) as B1.
  set (q := m / (2 * t)) in *. set (r := m mod (2 * t)) in *.
  cbn [shr_m loc_of_shr_record].
  destruct (round_bit m (S j)) eqn:R; destruct (sticky_bit m (S j)) eqn:S;
    cbn [round_nearest_even].
  - assert (t <= r) by (apply HR; reflexivity). nia.
  - assert (t <= r) by (apply HR; reflexivity).
    assert (r = t) by (destruct (HS eq_refl); lia).
    destruct (Z.even q); nia.
  - assert (r < t). { destruct (Z.le_gt_cases t r) as [L|L]; [apply HR in L; discriminate | lia]. }
    nia.
  - assert (r < t). { destruct (Z.le_gt_cases t r) as [L|L]; [apply HR in L; discriminate | lia]. }
    nia.
Qed.

Lemma fexp_normal (d e : Z) :
  -1074 <= d + e - 53 -> fexp 53 1024 (d + e) - e = d - 53.
Proof. unfold fexp, emin. lia. Qed.

(** A mantissa of exactly 53 bits is left alone by [shr_fexp]. *)
Lemma shr_fexp_53 (m : positive) (e : Z) :
  Z.pos (digits2_pos m) = 53 -> -1074 <= e ->
  shr_fexp 53 1024 (Z.pos m) e loc_Exact =
  ({| shr_m := Z.pos m; shr_r := false; shr_s := false |}, e).
Proof.
  intros D He. unfold shr_fexp. cbn [Zdigits2]. rewrite fexp_normal by lia.
  rewrite D. reflexivity.
Qed.

(** Rounding a product mantissa of [53 + p] bits. *)
Lemma binary_round_aux_shift (mx : positive) (ex : Z) (p : positive) :
  Z.pos (digits2_pos mx) = 53 + Z.pos p ->
  -1074 <= ex + Z.pos p ->
  ex + Z.pos p + 1 <= 971 ->
  exists m e,
    binary_round_aux 53 1024 false (Z.pos mx) ex loc_Exact = S754_finite false m e /\
    ex + Z.pos p <= e <= ex + Z.pos p + 1 /\
    Z.pos m < 2 ^ 53 /\
    2 ^ (e - ex) * (2 * Z.pos m - 1) <= 2 * Z.pos mx <= 2 ^ (e - ex) * (2 * Z.pos m + 1).
Proof.
  intros D Lo Hi.
  pose proof (digits2_pos_bounds mx) as B. rewrite D in B.
  rewrite Z.pow_add_r in B by lia.
  unfold binary_round_aux.
  unfold shr_fexp at 1. cbn [Zdigits2 shr_record_of_loc].
  rewrite fexp_normal by lia. rewrite D.
  replace (53 + Z.pos p - 53) with (Z.pos p) by lia.
  destruct (shr_round_nearest (Z.pos mx) ex p ltac:(lia)) as (E1 & R & Q).
  destruct (shr _ ex (Z.pos p)) as [mrs e1] eqn:S. cbn [fst snd] in E1, R, Q.
  remember (round_nearest_even (shr_m mrs) (loc_of_shr_record mrs)) as m1 eqn:Em1.
  clear Em1 S mrs.
  set (t := 2 ^ Z.pos p) in *. assert (0 < t) by (apply Z.pow_pos_nonneg; lia).
  assert (L52 : 2 ^ 52 <= Z.pos mx / t).
  { apply Z.div_le_lower_bound; [ lia | ]. change (2 ^ 53) with (2 * 2 ^ 52) in B. lia. }
  assert (U53 : Z.pos mx / t < 2 ^ 53).
  { apply Z.div_lt_upper_bound; lia. }
  destruct m1 as [ | m1 | m1 ]; try lia.
  destruct (Z.eq_dec (Z.pos m1) (2 ^ 53)) as [Top | NotTop].
  - (* the rounding carried into a 54th bit: one more shift, exactly *)
    injection Top as ->. subst e1.
    exists (4503599627370496%positive), (ex + Z.pos p + 1).
    split; [ | split; [ lia | split; [ reflexivity | ] ] ].
    + unfold shr_fexp. cbn [Zdigits2 shr_record_of_loc digits2_pos Pos.succ].
      rewrite fexp_normal by lia.
      change (Z.pos 54 - 53) with 1. cbn [shr iter_pos shr_1 shr_m].
      destruct (Z.leb_spec (ex + Z.pos p + 1) (1024 - 53)) as [_ | G]; [ reflexivity | lia ].
    + replace (ex + Z.pos p + 1 - ex) with (Z.succ (Z.pos p)) by lia.
      rewrite Z.pow_succ_r by lia. fold t.
      change (Z.pos 9007199254740992) with (2 ^ 53) in R.
      change (Z.pos 4503599627370496) with (2 ^ 52).
      change (2 ^ 53) with (2 * 2 ^ 52) in *. lia.
  - exists m1, e1. subst e1.
    assert (D1 : Z.pos (digits2_pos m1) = 53).
    { apply digits2_pos_unique; [ | lia ]. change (2 ^ 53) with (2 * 2 ^ 52) in *. lia. }
    rewrite shr_fexp_53 by lia. cbn [shr_m].
    destruct (Z.leb_spec (ex + Z.pos p) (1024 - 53)) as [_ | G]; [ | lia ].
    split; [ reflexivity | split; [ lia | split; [ lia | ] ] ].
    replace (ex + Z.pos p - ex) with (Z.pos p) by lia. fold t. lia.
Qed.

Lemma iter_xO_value (q c : positive) :
  Z.pos (Pos.iter xO q c) = Z.pos q * 2 ^ Z.pos c.
Proof.
  induction c as [ | c IH] using Pos.peano_ind.
  - cbn. lia.
  - rewrite Pos.iter_succ, Pos2Z.inj_xO, IH, Pos2Z.inj_succ, Z.pow_succ_r by lia. lia.
Qed.

(** A 53-bit mantissa with an exponent in range is already rounded. *)
Lemma binary_round_aux_53 (m : positive) (e : Z) :
  Z.pos (digits2_pos m) = 53 -> -1074 <= e <= 971 ->
  binary_round_aux 53 1024 false (Z.pos m) e loc_Exact = S754_finite false m e.
Proof.
  intros D He. unfold binary_round_aux.
  rewrite shr_fexp_53 by lia. cbn [shr_m loc_of_shr_record round_nearest_even].
  rewrite shr_fexp_53 by lia. cbn [shr_m].
  destruct (Z.leb_spec e (1024 - 53)); [ reflexivity | lia ].
Qed.

(** [float(n)] is exact below [2^53]: the mantissa is [n] shifted left to
    53 bits. *)
Lemma of_int_exact (n : Z) :
  0 < n < 2 ^ 53 ->
  exists (m : positive) (k : Z),
    binary_normalize 53 1024 n 0 false = S754_finite false m (- k) /\
    0 <= k <= 52 /\ Z.pos m = n * 2 ^ k /\ Z.pos (digits2_pos m) = 53 /\
    2 ^ 52 <= n * 2 ^ k < 2 ^ 53.
Proof.
  intros Hn. destruct n as [ | q | q ]; try lia.
  cbn [binary_normalize]. unfold binary_round.
  pose proof (digits2_pos_bounds q) as B.
  set (d := Z.pos (digits2_pos q)) in *.
  assert (Hd : 1 <= d <= 53).
  { split; [ subst d; lia | ].
    destruct (Z.le_gt_cases d 53) as [L | G]; [ exact L | exfalso ].
    assert (2 ^ 54 <= 2 ^ d) by (apply Z.pow_le_mono_r; lia).
    change (2 ^ 54) with (2 * 2 ^ 53) in *. lia. }
  replace (fexp 53 1024 (d + 0)) with (d - 53) by (unfold fexp, emin; lia).
  unfold shl_align.
  destruct (d - 53 - 0) as [ | c | c ] eqn:Ec; try lia.
  - exists q, 0. assert (D : d = 53) by lia.
    rewrite binary_round_aux_53 by (fold d; lia).
    rewrite D in B. change (2 ^ 53) with (2 * 2 ^ 52) in B.
    repeat split; lia.
  - set (mz := Pos.iter xO q c).
    assert (V : Z.pos mz = Z.pos q * 2 ^ Z.pos c) by apply iter_xO_value.
    assert (E53 : 2 ^ d * 2 ^ Z.pos c = 2 ^ 53).
    { rewrite <- Z.pow_add_r by lia. f_equal. lia. }
    assert (0 < 2 ^ Z.pos c) by (apply Z.pow_pos_nonneg; lia).
    assert (D : Z.pos (digits2_pos mz) = 53).
    { apply digits2_pos_unique; [ | lia ]. rewrite V. nia. }
    exists mz, (Z.pos c).
    replace (d - 53) with (- Z.pos c) by lia.
    rewrite binary_round_aux_53 by lia.
    change (2 ^ 53) with (2 * 2 ^ 52) in E53.
    repeat split; try lia; nia.
Qed.

(** The product of a size below [2^47] by a literal in [[1/2, 1)]: a
    positive float on a grid of step [1/T <= 1/32], within half a step of
    the exact product. *)
Lemma int_mul_rounding (n : Z) (c : positive) :
  0 < n < 2 ^ 47 -> 2 ^ 52 <= Z.pos c < 2 ^ 53 ->
  exists (m t : positive),
    PyFloat.int_mul n (S754_finite false c (-53)) = S754_finite false m (Z.neg t) /\
    32 <= 2 ^ Z.pos t /\
    Z.pos m < 2 ^ 53 /\
    2 ^ 53 * (2 * Z.pos m - 1) <= 2 * (n * 2 ^ Z.pos t) * Z.pos c
      <= 2 ^ 53 * (2 * Z.pos m + 1).
Proof.
  intros Hn Hc.
  destruct (of_int_exact n ltac:(change (2 ^ 53) with (2 ^ 47 * 64); lia))
    as (mx & k & E & Hk & V & D & B).
  unfold PyFloat.int_mul, PyFloat.of_int, PyFloat.mul, PyFloat.prec, PyFloat.emax.
  rewrite E. cbn [SFmul xorb].
  assert (K6 : 6 <= k).
  { destruct (Z.le_gt_cases 6 k) as [L | G]; [ exact L | exfalso ].
    assert (2 ^ k <= 2 ^ 5) by (apply Z.pow_le_mono_r; lia).
    change (2 ^ 5) with 32 in *. change (2 ^ 52) with (2 ^ 47 * 32) in B. nia. }
  (* the product mantissa has 105 or 106 bits *)
  assert (BP : 2 ^ 104 <= Z.pos (mx * c) < 2 ^ 106).
  { rewrite Pos2Z.inj_mul, V.
    change (2 ^ 104) with (2 ^ 52 * 2 ^ 52). change (2 ^ 106) with (2 ^ 53 * 2 ^ 53).
    nia. }
  assert (exists p : positive, Z.pos (digits2_pos (mx * c)) = 53 + Z.pos p /\
                               52 <= Z.pos p <= 53) as (p & DP & Hp).
  { destruct (Z.lt_ge_cases (Z.pos (mx * c)) (2 ^ 105)) as [L | G].
    - exists 52%positive. split; [ | lia ]. apply digits2_pos_unique; [ | lia ].
      change (2 ^ (53 + 52)) with (2 * 2 ^ 104). change (2 ^ 105) with (2 * 2 ^ 104) in L.
      lia.
    - exists 53%positive. split; [ | lia ]. apply digits2_pos_unique; [ | lia ].
      change (2 ^ (53 + 53)) with (2 * 2 ^ 105). change (2 ^ 106) with (2 * 2 ^ 105) in BP.
      lia. }
  destruct (binary_round_aux_shift (mx * c) (- k + -53) p DP ltac:(lia) ltac:(lia))
    as (m & e & R & He & Hm & Hb).
  destruct e as [ | e | t ]; try lia.
  exists m, t. split; [ exact R | ].
  assert (T32 : 32 <= 2 ^ Z.pos t).
  { change 32 with (2 ^ 5). apply Z.pow_le_mono_r; lia. }
  split; [ exact T32 | split; [ exact Hm | ] ].
  (* rescale the bound from the product's exponent to the result's grid *)
  assert (S : 2 ^ (Z.neg t - (- k + -53)) * 2 ^ Z.pos t = 2 ^ k * 2 ^ 53).
  { rewrite <- !Z.pow_add_r by lia. f_equal. lia. }
  rewrite Pos2Z.inj_mul, V in Hb.
  set (T := 2 ^ Z.pos t) in *. set (W := 2 ^ (Z.neg t - (- k + -53))) in *.
  set (K := 2 ^ k) in *. assert (0 < K) by (apply Z.pow_pos_nonneg; lia).
  assert (0 < W) by (apply Z.pow_pos_nonneg; lia).
  set (X := 2 ^ 53) in *.
  split.
  - apply Z.mul_le_mono_pos_l with (p := K); [ lia | ].
    replace (K * (X * (2 * Z.pos m - 1))) with (W * (2 * Z.pos m - 1) * T) by (rewrite (Z.mul_assoc K X), <- S; ring).
    replace (K * (2 * (n * T) * Z.pos c)) with (2 * (n * K * Z.pos c) * T) by ring.
    apply Z.mul_le_mono_nonneg_r; lia.
  - apply Z.mul_le_mono_pos_l with (p := K); [ lia | ].
    replace (K * (X * (2 * Z.pos m + 1))) with (W * (2 * Z.pos m + 1) * T) by (rewrite (Z.mul_assoc K X), <- S; ring).
    replace (K * (2 * (n * T) * Z.pos c)) with (2 * (n * K * Z.pos c) * T) by ring.
    apply Z.mul_le_mono_nonneg_r; lia.
Qed.

(** [x > n * 0.95] agrees with the exact rational comparison for sizes
    below [2^47]. *)
Lemma int_gt_0_95 (n x : Z) :
  0 < n < 2 ^ 47 ->
  PyFloat.int_gt x (PyFloat.int_mul n PyFloat.lit_0_95) = (95 * n <? 100 * x).
Proof.
  intros Hn. unfold PyFloat.lit_0_95.
  destruct (int_mul_rounding n 8556839292003942 Hn ltac:(cbn; lia))
    as (m & t & E & T32 & Hm & Lo & Hi).
  rewrite E. unfold PyFloat.int_gt, PyFloat.int_compare.
  set (T := 2 ^ Z.pos t) in *. set (u := n * T) in *.
  set (w := x * T).
  assert (Hu : u < 2 ^ 47 * T) by (subst u; nia).
  assert (Hz : 20 * w - 19 * u = T * (20 * x - 19 * n)) by (subst u w; ring).
  change (2 ^ 53) with 9007199254740992 in *. change (2 ^ 47) with 140737488355328 in *.
  destruct (Z.ltb_spec (95 * n) (100 * x)) as [L | G].
  - assert (T <= T * (20 * x - 19 * n)) by nia.
    destruct (Z.compare_spec w (Z.pos m)) as [C | C | C]; try reflexivity; exfalso; lia.
  - destruct (Z.eq_dec (20 * x) (19 * n)) as [Q | Q].
    + assert (T * (20 * x - 19 * n) = 0) by nia.
      destruct (Z.compare_spec w (Z.pos m)) as [C | C | C]; try reflexivity; exfalso; lia.
    + assert (T * (20 * x - 19 * n) <= - T) by nia.
      destruct (Z.compare_spec w (Z.pos m)) as [C | C | C]; try reflexivity; exfalso; lia.
Qed.

(** [x < n * 0.98] agrees with the exact rational comparison for sizes
    below [2^47]. *)
Lemma int_lt_0_98 (n x : Z) :
  0 <= n < 2 ^ 47 ->
  PyFloat.int_lt x (PyFloat.int_mul n PyFloat.lit_0_98) = (100 * x <? 98 * n).
Proof.
  intros Hn. destruct (Z.eq_dec n 0) as [-> | N0].
  { change (PyFloat.int_mul 0 PyFloat.lit_0_98) with (S754_zero false).
    unfold PyFloat.int_lt, PyFloat.int_compare.
    destruct (Z.compare_spec x 0); destruct (Z.ltb_spec (100 * x) 0); try reflexivity; lia. }
  unfold PyFloat.lit_0_98.
  destruct (int_mul_rounding n 8827055269646172 ltac:(lia) ltac:(cbn; lia))
    as (m & t & E & T32 & Hm & Lo & Hi).
  rewrite E. unfold PyFloat.int_lt, PyFloat.int_compare.
  set (T := 2 ^ Z.pos t) in *. set (u := n * T) in *.
  set (w := x * T).
  assert (Hu : u < 2 ^ 47 * T) by (subst u; nia).
  assert (Hz : 50 * w - 49 * u = T * (50 * x - 49 * n)) by (subst u w; ring).
  change (2 ^ 53) with 9007199254740992 in *. change (2 ^ 47) with 140737488355328 in *.
  destruct (Z.ltb_spec (100 * x) (98 * n)) as [L | G].
  - assert (T * (50 * x - 49 * n) <= - T) by nia.
    destruct (Z.compare_spec w (Z.pos m)) as [C | C | C]; try reflexivity; exfalso; lia.
  - assert (0 <= T * (50 * x - 49 * n)) by nia.
    destruct (Z.compare_spec w (Z.pos m)) as [C | C | C]; try reflexivity; exfalso; lia.
Qed.

End Binary64Rounding.

Section HistogramFacts.

(** ** The histogram *)

Lemma count_cons (b : byte) (data : list byte) (x : nat) :
  count (b :: data) x =
  ((if Nat.eqb (Byte.to_nat b) x then 1 else 0) + count data x)%nat.
Proof.
  unfold count. cbn [map count_occ].
  destruct (Nat.eq_dec (Byte.to_nat b) x) as [E | N].
  - rewrite (proj2 (Nat.eqb_eq _ _) E). reflexivity.
  - rewrite (proj2 (Nat.eqb_neq _ _) N). reflexivity.
Qed.

Lemma count_le_length (data : list byte) (x : nat) :
  (count data x <= List.length data)%nat.
Proof.
  induction data as [ | b data IH]; [ apply Nat.le_refl | ].
  rewrite count_cons. cbn [List.length]. destruct (Nat.eqb _ x); lia.
Qed.

Lemma indicator_sum (k n : nat) :
  list_sum (map (fun x => if Nat.eqb k x then 1 else 0)%nat (seq 0 n)) =
  if Nat.ltb k n then 1%nat else 0%nat.
Proof.
  induction n as [ | n IH]; [ reflexivity | ].
  rewrite seq_S, map_app, list_sum_app, IH. cbn [map Nat.add].
  unfold list_sum at 1. cbn [fold_right].
  destruct (Nat.ltb_spec k n); destruct (Nat.ltb_spec k (S n));
    destruct (Nat.eqb_spec k n); lia.
Qed.

(** Every byte falls in exactly one of the 256 bins. *)
Lemma histogram_total (data : list byte) :
  list_sum (histogram data) = List.length data.
Proof.
  unfold histogram. induction data as [ | b data IH].
  - induction (seq 0 256) as [ | x xs IHx]; [ reflexivity | exact IHx ].
  - rewrite (map_ext _ (fun x => ((if Nat.eqb (Byte.to_nat b) x then 1 else 0)
                                  + count data x)%nat) (count_cons b data)).
    assert (S : forall (f g : nat -> nat) xs,
               list_sum (map (fun x => f x + g x)%nat xs) =
               (list_sum (map f xs) + list_sum (map g xs))%nat).
    { intros f g xs. induction xs as [ | y ys IHy]; [ reflexivity | ].
      unfold list_sum in *. cbn [map fold_right]. rewrite IHy. lia. }
    rewrite S, IH, indicator_sum.
    pose proof (Byte.to_nat_bounded b) as Bb.
    destruct (Nat.ltb_spec (Byte.to_nat b) 256); [ reflexivity | lia ].
Qed.

End HistogramFacts.

Section EntropyFacts.

Local Open Scope R_scope.

(** ** Sums over lists *)

Lemma fold_left_Rplus (xs : list R) (acc : R) :
  fold_left Rplus xs acc = acc + rsum xs.
Proof.
  revert acc. induction xs as [ | x xs IH]; intros acc; cbn.
  - lra.
  - rewrite IH. lra.
Qed.

Lemma sum_rsum (xs : list R) : sum xs = rsum xs.
Proof. unfold sum. rewrite fold_left_Rplus. lra. Qed.

Lemma rsum_map_le {A} (f g : A -> R) (xs : list A) :
  (forall x, In x xs -> f x <= g x) -> rsum (map f xs) <= rsum (map g xs).
Proof.
  induction xs as [ | x xs IH]; intros H; cbn.
  - lra.
  - pose proof (H x (or_introl eq_refl)).
    assert (rsum (map f xs) <= rsum (map g xs)) by (apply IH; intros; apply H; now right).
    lra.
Qed.

Lemma rsum_map_ext {A} (f g : A -> R) (xs : list A) :
  (forall x, In x xs -> f x = g x) -> rsum (map f xs) = rsum (map g xs).
Proof.
  intros H. f_equal. apply map_ext_in. exact H.
Qed.

Lemma rsum_map_const {A} (c : R) (xs : list A) :
  rsum (map (fun _ => c) xs) = INR (List.length xs) * c.
Proof.
  induction xs as [ | x xs IH].
  - cbn. lra.
  - cbn [map fold_right List.length]. rewrite IH, S_INR. lra.
Qed.

Lemma rsum_map_plus {A} (f g : A -> R) (xs : list A) :
  rsum (map (fun x => f x + g x) xs) = rsum (map f xs) + rsum (map g xs).
Proof.
  induction xs as [ | x xs IH]; cbn.
  - lra.
  - rewrite IH. lra.
Qed.

Lemma rsum_map_scal {A} (c : R) (f : A -> R) (xs : list A) :
  rsum (map (fun x => c * f x) xs) = c * rsum (map f xs).
Proof.
  induction xs as [ | x xs IH]; cbn.
  - lra.
  - rewrite IH. lra.
Qed.

Lemma rsum_map_INR {A} (f : A -> nat) (xs : list A) :
  rsum (map (fun x => INR (f x)) xs) = INR (list_sum (map f xs)).
Proof.
  induction xs as [ | x xs IH]; cbn.
  - reflexivity.
  - rewrite IH, plus_INR. reflexivity.
Qed.

(** ** Entropy as a sum of per-bin terms *)

Lemma fold_entropy_step (data : list byte) (xs : list nat) (acc : R) :
  fold_left (entropy_step data) xs acc = acc + rsum (map (term data) xs).
Proof.
  revert acc. induction xs as [ | x xs IH]; intros acc; cbn [fold_left map fold_right].
  - lra.
  - rewrite IH. unfold entropy_step, term, prob.
    destruct (Rlt_dec 0 (INR (count data x) / INR (List.length data))); lra.
Qed.

Lemma get_entropy_terms (data : list byte) :
  data <> [] -> get_entropy data = rsum (map (term data) (seq 0 256)).
Proof.
  intros N. destruct data as [ | b data]; [ contradiction | ].
  unfold get_entropy. rewrite fold_entropy_step. lra.
Qed.

Lemma calculate_entropy_eq (data : list byte) :
  calculate_entropy data = get_entropy data.
Proof. reflexivity. Qed.

Lemma terms_shannon (data : list byte) (xs : list nat) :
  rsum (map (term data) xs) =
  - rsum (map (fun p => p * (ln p / ln 2))
            (filter positive_bin
               (map (fun h => INR h / INR (List.length data)) (map (count data) xs)))).
Proof.
  induction xs as [ | x xs IH]; cbn [map filter fold_right].
  - lra.
  - rewrite IH. unfold term, prob, positive_bin, log.
    destruct (Rlt_dec 0 (INR (count data x) / INR (List.length data)));
      cbn [map fold_right]; lra.
Qed.

Lemma get_entropy_shannon (data : list byte) :
  get_entropy data = shannon_entropy data.
Proof.
  destruct data as [ | b data]; [ reflexivity | ].
  rewrite get_entropy_terms by discriminate.
  unfold shannon_entropy, histogram. apply terms_shannon.
Qed.

(** ** Bounds *)

Lemma ln_le_minus_1 (x : R) : 0 < x -> ln x <= x - 1.
Proof.
  intros Hx. pose proof (exp_ineq1_le (ln x)) as H. rewrite exp_ln in H by assumption. lra.
Qed.

Lemma ln_2_pos : 0 < ln 2.
Proof. pose proof ln_lt_2. lra. Qed.

Lemma ln_256 : ln 256 = 8 * ln 2.
Proof.
  replace 256 with (2 ^ 8) by (simpl; lra).
  rewrite ln_pow by lra. simpl. lra.
Qed.

Section Probabilities.
Variable data : list byte.
Hypothesis data_nonempty : data <> [].

Lemma length_pos : 0 < INR (List.length data).
Proof.
  apply lt_0_INR. destruct data; [ contradiction | cbn; lia ].
Qed.

Lemma prob_range (x : nat) : 0 <= prob data x <= 1.
Proof.
  pose proof length_pos as L. unfold prob. split.
  - apply Rmult_le_pos; [ apply pos_INR | left; now apply Rinv_0_lt_compat ].
  - apply Rmult_le_reg_r with (r := INR (List.length data)); [ exact L | ].
    unfold Rdiv. rewrite Rmult_assoc, Rinv_l by lra. rewrite Rmult_1_r, Rmult_1_l.
    apply le_INR, count_le_length.
Qed.

Lemma prob_total : rsum (map (prob data) (seq 0 256)) = 1.
Proof.
  pose proof length_pos as L. unfold prob, Rdiv.
  rewrite (rsum_map_ext _ (fun x => / INR (List.length data) * INR (count data x)))
    by (intros; apply Rmult_comm).
  rewrite rsum_map_scal, rsum_map_INR.
  change (map (count data) (seq 0 256)) with (histogram data).
  rewrite histogram_total. apply Rinv_l. lra.
Qed.

Lemma term_nonneg (x : nat) : 0 <= term data x.
Proof.
  unfold term. destruct (Rlt_dec 0 (prob data x)) as [P | P]; [ | lra ].
  pose proof (prob_range x) as [_ U]. pose proof ln_2_pos.
  assert (ln (prob data x) <= 0).
  { pose proof (ln_le_minus_1 _ P). lra. }
  unfold log, Rdiv.
  assert (0 <= prob data x * (- ln (prob data x)) * / ln 2).
  { apply Rmult_le_pos; [ apply Rmult_le_pos; lra | left; now apply Rinv_0_lt_compat ]. }
  lra.
Qed.

(** Gibbs' inequality against the uniform distribution, bin by bin. *)
Lemma term_gibbs (x : nat) :
  term data x <= (/ 256 + prob data x * (ln 256 - 1)) * / ln 2.
Proof.
  pose proof ln_2_pos as L2. pose proof (prob_range x) as [P0 P1].
  assert (I2 : 0 < / ln 2) by now apply Rinv_0_lt_compat.
  unfold term. destruct (Rlt_dec 0 (prob data x)) as [P | P].
  - set (p := prob data x) in *.
    assert (G : ln (/ (256 * p)) <= / (256 * p) - 1) by (apply ln_le_minus_1, Rinv_0_lt_compat; lra).
    rewrite ln_Rinv, ln_mult in G by lra.
    assert (M : p * (- (ln 256 + ln p)) <= p * (/ (256 * p) - 1)).
    { apply Rmult_le_compat_l; lra. }
    replace (p * (/ (256 * p) - 1)) with (/ 256 - p) in M by (field; lra).
    unfold log, Rdiv.
    apply Rmult_le_reg_r with (r := ln 2); [ exact L2 | ].
    replace (- p * (ln p * / ln 2) * ln 2) with (- p * ln p) by (field; lra).
    replace ((/ 256 + p * (ln 256 - 1)) * / ln 2 * ln 2) with (/ 256 + p * (ln 256 - 1))
      by (field; lra).
    lra.
  - assert (E : prob data x = 0) by lra. rewrite E.
    apply Rmult_le_pos; lra.
Qed.

Lemma entropy_range : 0 <= get_entropy data <= 8.
Proof.
  rewrite get_entropy_terms by assumption. split.
  - apply Rle_trans with (rsum (map (fun _ : nat => 0) (seq 0 256))).
    { rewrite rsum_map_const. lra. }
    apply rsum_map_le. intros x _. apply term_nonneg.
  - pose proof ln_2_pos as L2.
    apply Rle_trans with
      (rsum (map (fun x => (/ 256 + prob data x * (ln 256 - 1)) * / ln 2) (seq 0 256))).
    { apply rsum_map_le. intros x _. apply term_gibbs. }
    rewrite (rsum_map_ext _ (fun x => / ln 2 * (/ 256 + (ln 256 - 1) * prob data x)))
      by (intros; ring).
    rewrite rsum_map_scal, rsum_map_plus, rsum_map_scal, rsum_map_const, prob_total.
    rewrite length_seq, ln_256.
    replace (INR 256) with 256 by (rewrite INR_IZR_INZ; reflexivity).
    right. field. lra.
Qed.

End Probabilities.

Lemma term_degenerate (data : list byte) (x : nat) :
  data <> [] ->
  count data x = 0%nat \/ count data x = List.length data ->
  term data x = 0.
Proof.
  intros N [Z | F]; unfold term, prob; rewrite ?Z, ?F.
  - destruct (Rlt_dec 0 (INR 0 / INR (List.length data))) as [P | P]; [ | reflexivity ].
    exfalso. cbn [INR] in P. unfold Rdiv in P. rewrite Rmult_0_l in P. lra.
  - pose proof (length_pos data N) as L.
    replace (INR (List.length data) / INR (List.length data)) with 1 by (field; lra).
    destruct (Rlt_dec 0 1); [ | reflexivity ].
    unfold log. rewrite ln_1. unfold Rdiv. ring.
Qed.

Lemma count_repeat (b : byte) (n x : nat) :
  count (repeat b n) x = if Nat.eqb (Byte.to_nat b) x then n else 0%nat.
Proof.
  induction n as [ | n IH].
  - cbn. now destruct (Nat.eqb _ x).
  - cbn [repeat]. rewrite count_cons, IH. now destruct (Nat.eqb _ x).
Qed.

Lemma entropy_constant (b : byte) (n : nat) :
  (0 < n)%nat -> get_entropy (repeat b n) = 0.
Proof.
  intros Hn.
  assert (N : repeat b n <> []) by (destruct n; [ lia | discriminate ]).
  rewrite get_entropy_terms by exact N.
  rewrite (rsum_map_ext _ (fun _ => 0)).
  - rewrite rsum_map_const. lra.
  - intros x _. apply term_degenerate; [ exact N | ].
    rewrite count_repeat, repeat_length. destruct (Nat.eqb _ x); auto.
Qed.

Lemma entropy_uniform (data : list byte) :
  (forall x, (x < 256)%nat -> count data x = 1%nat) -> get_entropy data = 8.
Proof.
  intros U.
  assert (L : List.length data = 256%nat).
  { rewrite <- histogram_total. unfold histogram.
    rewrite (map_ext_in _ (fun _ => 1%nat)) by (intros x Hx; apply in_seq in Hx; apply U; lia).
    reflexivity. }
  assert (N : data <> []) by (intros ->; discriminate).
  rewrite get_entropy_terms by exact N.
  pose proof ln_2_pos as L2.
  rewrite (rsum_map_ext _ (fun _ => 8 / 256)).
  - rewrite rsum_map_const, length_seq.
    replace (INR 256) with 256 by (rewrite INR_IZR_INZ; reflexivity). field.
  - intros x Hx. apply in_seq in Hx. unfold term, prob. rewrite U, L by lia.
    replace (INR 256) with 256 by (rewrite INR_IZR_INZ; reflexivity).
    replace (INR 1) with 1 by reflexivity.
    destruct (Rlt_dec 0 (1 / 256)) as [P | P]; [ | lra ].
    unfold log. replace (1 / 256) with (/ 256) by lra.
    rewrite ln_Rinv, ln_256 by lra. field. lra.
Qed.

End EntropyFacts.

Section SamplerFacts.

Local Open Scope Z_scope.

(** ** The chunk sampler *)

(** The three windows in closed form. *)
Lemma chunks_windows (data : list byte) :
  chunks data =
  Some [ firstn (Z.to_nat CHUNK_SIZE) data;
         firstn (Z.to_nat CHUNK_SIZE) (skipn (Z.to_nat (len data / 2)) data);
         firstn (Z.to_nat CHUNK_SIZE) (skipn (Z.to_nat (len data - CHUNK_SIZE)) data) ].
Proof.
  unfold chunks, read_chunks, FileIO.with_open, FileIO.bind, FileIO.read, FileIO.seek,
    FileIO.ret.
  cbn [FileIO.content FileIO.position skipn].
  assert (H2 : 0 <= len data / 2) by (apply Z.div_pos; unfold len; lia).
  destruct (Z.ltb_spec (Z.max 0 (len data / 2)) 0) as [B | _]; [ lia | ].
  cbn [FileIO.content FileIO.position].
  destruct (Z.ltb_spec (Z.max 0 (len data - CHUNK_SIZE)) 0) as [B | _]; [ lia | ].
  cbn [FileIO.content FileIO.position].
  rewrite Z.max_r by lia.
  destruct (Z.max_spec 0 (len data - CHUNK_SIZE)) as [[L ->] | [L ->]].
  - reflexivity.
  - replace (Z.to_nat (len data - CHUNK_SIZE)) with 0%nat by lia. reflexivity.
Qed.

Lemma chunks_small_file (data : list byte) :
  0 < len data < CHUNK_SIZE ->
  chunks data = Some [data; skipn (Z.to_nat (len data / 2)) data; data].
Proof.
  intros H. rewrite chunks_windows. unfold len, CHUNK_SIZE in *.
  replace (Z.to_nat (Z.of_nat (List.length data) - 16384)) with 0%nat by lia.
  cbn [skipn].
  rewrite !firstn_all2; [ reflexivity | rewrite length_skipn; lia | lia ].
Qed.

Lemma firstn_nonempty {A} (n : nat) (l : list A) :
  (0 < n)%nat -> l <> [] -> firstn n l <> [].
Proof. destruct n; [ lia | ]. destruct l; [ contradiction | discriminate ]. Qed.

Lemma skipn_nonempty {A} (n : nat) (l : list A) :
  (n < List.length l)%nat -> skipn n l <> [].
Proof.
  intros H E. apply (f_equal (@List.length A)) in E. rewrite length_skipn in E.
  cbn in E. lia.
Qed.

Lemma nonempty_true (c : list byte) : c <> [] -> nonempty c = true.
Proof. destruct c; [ contradiction | reflexivity ]. Qed.

(** Every window of a non-empty file is non-empty. *)
Lemma chunks_nonempty (data : list byte) :
  data <> [] ->
  exists head mid tail,
    chunks data = Some [head; mid; tail] /\
    nonempty head = true /\ nonempty mid = true /\ nonempty tail = true.
Proof.
  intros N. rewrite chunks_windows.
  assert (L : 0 < len data).
  { destruct data; [ contradiction | unfold len; cbn [List.length]; lia ]. }
  do 3 eexists. split; [ reflexivity | ].
  assert (W : (0 < Z.to_nat CHUNK_SIZE)%nat) by (unfold CHUNK_SIZE; lia).
  repeat split; apply nonempty_true, firstn_nonempty; try exact W; try exact N.
  - apply skipn_nonempty. unfold len in *.
    assert (Z.of_nat (List.length data) / 2 < Z.of_nat (List.length data))
      by (apply Z.div_lt; lia).
    assert (0 <= Z.of_nat (List.length data) / 2) by (apply Z.div_pos; lia).
    lia.
  - apply skipn_nonempty. unfold len, CHUNK_SIZE in *. lia.
Qed.

Lemma chunks_empty_file : chunks [] = Some [[]; []; []].
Proof. reflexivity. Qed.

(** ** Average entropy *)

Local Open Scope R_scope.

Lemma avg_entropy_silesia_mean (cs : list (list byte)) :
  avg_entropy_silesia cs = mean_entropy_of_nonempty cs.
Proof.
  unfold avg_entropy_silesia, mean_entropy_of_nonempty.
  destruct (filter nonempty cs) as [ | c kept] eqn:F; [ reflexivity | ].
  set (l := c :: kept).
  replace (map calculate_entropy l) with (map shannon_entropy l)
    by (apply map_ext; intros; symmetry; apply get_entropy_shannon).
  rewrite sum_rsum, length_map. reflexivity.
Qed.

Lemma filter_nonempty_all (cs : list (list byte)) :
  Forall (fun c => nonempty c = true) cs -> filter nonempty cs = cs.
Proof.
  induction 1 as [ | c cs Hc _ IH]; [ reflexivity | ].
  cbn [filter]. rewrite Hc, IH. reflexivity.
Qed.

Lemma avg_entropy_real_mean (cs : list (list byte)) :
  cs <> [] -> Forall (fun c => nonempty c = true) cs ->
  avg_entropy_real cs = mean_entropy_of_nonempty cs.
Proof.
  intros N A. unfold avg_entropy_real, mean_entropy_of_nonempty.
  rewrite filter_nonempty_all by exact A.
  destruct cs as [ | c cs]; [ contradiction | ].
  set (l := c :: cs).
  replace (map get_entropy l) with (map shannon_entropy l)
    by (apply map_ext; intros; symmetry; apply get_entropy_shannon).
  rewrite sum_rsum, length_map. reflexivity.
Qed.

(** Both variants on the sample of any file. *)
Lemma sampled_average (data : list byte) :
  exists cs,
    chunks data = Some cs /\
    avg_entropy_real cs = mean_entropy_of_nonempty cs /\
    avg_entropy_silesia cs = mean_entropy_of_nonempty cs.
Proof.
  destruct data as [ | b data].
  - exists [[]; []; []]. split; [ reflexivity | ]. split.
    + unfold avg_entropy_real, mean_entropy_of_nonempty, sum. cbn. lra.
    + apply avg_entropy_silesia_mean.
  - destruct (chunks_nonempty (b :: data)) as (h & m & t & E & Hh & Hm & Ht);
      [ discriminate | ].
    exists [h; m; t]. split; [ exact E | ]. split.
    + apply avg_entropy_real_mean; [ discriminate | ]. repeat constructor; assumption.
    + apply avg_entropy_silesia_mean.
Qed.

Lemma all_empty_average (cs : list (list byte)) :
  Forall (fun c => c = []) cs ->
  avg_entropy_real cs = 0 /\ avg_entropy_silesia cs = 0 /\
  mean_entropy_of_nonempty cs = 0.
Proof.
  intros A.
  assert (F : filter nonempty cs = []).
  { induction A as [ | c cs -> _ IH]; [ reflexivity | exact IH ]. }
  unfold avg_entropy_silesia, mean_entropy_of_nonempty. rewrite F. cbn [map].
  split; [ | split; reflexivity ].
  unfold avg_entropy_real. rewrite sum_rsum.
  replace (rsum (map get_entropy cs)) with 0; [ unfold Rdiv; ring | ].
  clear F. induction A as [ | c cs -> _ IH]; [ reflexivity | ].
  cbn [map fold_right get_entropy]. rewrite <- IH. lra.
Qed.

End SamplerFacts.

Section HintFacts.

Local Open Scope string_scope.

Variable U : unicode.

(** ** Comparing strings *)

Lemma str_eqb_eq (a b : str) : str_eqb a b = true <-> a = b.
Proof.
  revert b. induction a as [ | x a IH]; intros [ | y b]; cbn [str_eqb];
    try (split; [ discriminate | discriminate ]); [ tauto | ].
  rewrite andb_true_iff, N.eqb_eq, IH. split.
  - intros [-> ->]. reflexivity.
  - intros [= -> ->]. split; reflexivity.
Qed.

Lemma str_eqb_refl (a : str) : str_eqb a a = true.
Proof. now apply str_eqb_eq. Qed.

(** ** Lower-casing ASCII text *)

(** On ASCII text [lower] is the ASCII lower-casing, whatever the table. *)
Lemma lower_from_ascii (s : str) (i : nat) (rest : str) :
  forallb is_ascii rest = true -> lower_from U s i rest = map ascii_lower rest.
Proof.
  revert i. induction rest as [ | c rest IH]; intros i H; [ reflexivity | ].
  cbn [forallb] in H. apply andb_true_iff in H. destruct H as [Hc Hr].
  cbn [lower_from map]. rewrite Hc, IH by exact Hr. reflexivity.
Qed.

Lemma lower_ascii (s : str) :
  forallb is_ascii s = true -> lower U s = map ascii_lower s.
Proof. apply lower_from_ascii. Qed.

Lemma lower_from_app (s : str) (i : nat) (a b : str) :
  lower_from U s i (a ++ b)%list =
  (lower_from U s i a ++ lower_from U s (i + List.length a) b)%list.
Proof.
  revert i. induction a as [ | c a IH]; intros i.
  - cbn. now rewrite Nat.add_0_r.
  - cbn [app lower_from List.length]. rewrite IH, <- app_assoc.
    now rewrite Nat.add_succ_comm.
Qed.

(** The lower-cased text ends with the lower-cased ASCII suffix. *)
Lemma lower_ascii_suffix (a b : str) :
  forallb is_ascii b = true ->
  exists p, lower U (a ++ b)%list = (p ++ map ascii_lower b)%list.
Proof.
  intros H. unfold lower. rewrite lower_from_app, (lower_from_ascii _ _ b H). eauto.
Qed.

Lemma ascii_lower_dot (c : code_point) : N.eqb (ascii_lower c) (ord ".") = N.eqb c (ord ".").
Proof.
  change (ord ".") with 46%N. unfold ascii_lower.
  destruct ((65 <=? c)%N && (c <=? 90)%N) eqn:E; [ | reflexivity ].
  apply andb_true_iff in E. destruct E as [E1 E2].
  apply N.leb_le in E1, E2.
  destruct (N.eqb_spec (c + 32) 46), (N.eqb_spec c 46); try reflexivity; lia.
Qed.

Lemma ascii_lower_slash (c : code_point) : N.eqb (ascii_lower c) (ord "/") = N.eqb c (ord "/").
Proof.
  change (ord "/") with 47%N. unfold ascii_lower.
  destruct ((65 <=? c)%N && (c <=? 90)%N) eqn:E; [ | reflexivity ].
  apply andb_true_iff in E. destruct E as [E1 E2].
  apply N.leb_le in E1, E2.
  destruct (N.eqb_spec (c + 32) 47), (N.eqb_spec c 47); try reflexivity; lia.
Qed.

Lemma is_ascii_lower (c : code_point) : is_ascii (ascii_lower c) = is_ascii c.
Proof.
  unfold is_ascii, ascii_lower.
  destruct ((65 <=? c)%N && (c <=? 90)%N) eqn:E; [ | reflexivity ].
  apply andb_true_iff in E. destruct E as [E1 E2].
  apply N.leb_le in E1, E2.
  destruct (N.ltb_spec (c + 32) 128), (N.ltb_spec c 128); try reflexivity; lia.
Qed.

Lemma isascii_lower (s : str) :
  forallb is_ascii (map ascii_lower s) = forallb is_ascii s.
Proof.
  induction s as [ | c s IH]; [ reflexivity | ].
  cbn [map forallb]. now rewrite is_ascii_lower, IH.
Qed.

(** ** Splitting *)

Lemma split_not_nil (sep : code_point) (s : str) : split sep s <> [].
Proof.
  destruct s as [ | c s]; cbn [split]; [ discriminate | ].
  destruct (N.eqb c sep); [ discriminate | ].
  destruct (split sep s); discriminate.
Qed.

(** Lower-casing ASCII letters commutes with splitting at a separator
    that it fixes. *)
Lemma split_ascii_lower (sep : code_point) (s : str) :
  (forall c, N.eqb (ascii_lower c) sep = N.eqb c sep) ->
  split sep (map ascii_lower s) = map (map ascii_lower) (split sep s).
Proof.
  intros Hsep. induction s as [ | c s IH]; [ reflexivity | ].
  cbn [map split]. rewrite Hsep, IH.
  destruct (N.eqb c sep); [ reflexivity | ].
  destruct (split sep s); reflexivity.
Qed.

Lemma last_item_map (f : str -> str) (xs : list str) :
  xs <> [] -> last_item (map f xs) = f (last_item xs).
Proof.
  unfold last_item. induction xs as [ | x xs IH]; [ contradiction | ].
  intros _. destruct xs as [ | y ys]; [ reflexivity | ]. apply IH. discriminate.
Qed.

(** The parts of an ASCII text are ASCII. *)
Lemma split_isascii (sep : code_point) (s : str) :
  forallb is_ascii s = true ->
  Forall (fun w => forallb is_ascii w = true) (split sep s).
Proof.
  induction s as [ | c s IH]; intros H.
  - repeat constructor.
  - cbn [forallb] in H. apply andb_true_iff in H. destruct H as [Hc Hs].
    specialize (IH Hs). cbn [split].
    destruct (N.eqb c sep); [ constructor; [ reflexivity | exact IH ] | ].
    destruct (split sep s) as [ | w ws].
    + repeat constructor. cbn. now rewrite Hc.
    + inversion IH as [ | ? ? Hw Hws]; subst.
      constructor; [ cbn; now rewrite Hc, Hw | exact Hws ].
Qed.

Lemma last_item_isascii (sep : code_point) (s : str) :
  forallb is_ascii s = true -> forallb is_ascii (last_item (split sep s)) = true.
Proof.
  intros H. pose proof (split_isascii sep s H) as F.
  pose proof (split_not_nil sep s) as N.
  unfold last_item. destruct (split sep s) as [ | w ws]; [ contradiction | ].
  rewrite Forall_forall in F. apply F.
  apply (@exists_last _ (w :: ws)) in N. destruct N as (l' & a & E).
  rewrite E, last_last. apply in_or_app. right. now left.
Qed.

(** On an ASCII name the lower-cased last part is the last part of the
    lower-cased name. *)
Lemma lower_last_part (sep : code_point) (s : str) :
  (forall c, N.eqb (ascii_lower c) sep = N.eqb c sep) ->
  forallb is_ascii s = true ->
  lower U (last_item (split sep s)) = last_item (split sep (map ascii_lower s)).
Proof.
  intros Hsep H.
  rewrite lower_ascii by now apply last_item_isascii.
  rewrite split_ascii_lower by exact Hsep.
  symmetry. apply last_item_map, split_not_nil.
Qed.

(** Names of ASCII characters that differ in letter case only have the
    same hint. *)
Lemma hint_real_ascii_case (f g : str) :
  forallb is_ascii f = true -> map ascii_lower f = map ascii_lower g ->
  hint_real U f = hint_real U g.
Proof.
  intros F E.
  assert (G : forallb is_ascii g = true) by (now rewrite <- isascii_lower, <- E, isascii_lower).
  unfold hint_real, extension.
  rewrite !lower_last_part by (apply ascii_lower_dot || assumption).
  now rewrite E.
Qed.

Lemma hint_silesia_ascii_case (f g : str) :
  forallb is_ascii f = true -> map ascii_lower f = map ascii_lower g ->
  hint_silesia U f = hint_silesia U g.
Proof.
  intros F E.
  assert (G : forallb is_ascii g = true) by (now rewrite <- isascii_lower, <- E, isascii_lower).
  unfold hint_silesia, basename.
  rewrite !lower_last_part by (apply ascii_lower_slash || assumption).
  now rewrite E.
Qed.

(** ** Membership in the literal tables *)

Lemma member_In (x : str) (xs : list str) : member x xs = true <-> In x xs.
Proof.
  unfold member. rewrite existsb_exists. split.
  - intros (y & Hy & E). apply str_eqb_eq in E. now subst.
  - intros H. exists x. split; [ exact H | apply str_eqb_refl ].
Qed.

Lemma member_not_In (x : str) (xs : list str) : member x xs = false <-> ~ In x xs.
Proof.
  rewrite <- member_In. destruct (member x xs); split; intros; easy.
Qed.

Lemma hint_real_text (f : str) :
  In (extension U f) (literals ["txt"; "csv"; "js"; "md"]) -> hint_real U f = TEXT.
Proof.
  intros H. unfold hint_real. cbn [literals map In] in H.
  destruct H as [<- | [<- | [<- | [<- | []]]]]; reflexivity.
Qed.

Lemma hint_real_media (f : str) :
  In (extension U f) (literals ["jpg"; "mp4"; "zip"]) -> hint_real U f = MEDIA.
Proof.
  intros H. unfold hint_real. cbn [literals map In] in H.
  destruct H as [<- | [<- | [<- | []]]]; reflexivity.
Qed.

Lemma hint_real_generic (f : str) :
  ~ In (extension U f) (literals ["txt"; "csv"; "js"; "md"]) ->
  ~ In (extension U f) (literals ["jpg"; "mp4"; "zip"]) ->
  hint_real U f = GENERIC.
Proof.
  intros T M. apply member_not_In in T, M. unfold hint_real. now rewrite T, M.
Qed.

Lemma hint_silesia_text (p : str) :
  In (lower U (basename p)) (literals ["dickens"; "samba"; "webster"; "xml"]) ->
  hint_silesia U p = TEXT.
Proof.
  intros H. unfold hint_silesia. cbn [literals map In] in H.
  destruct H as [<- | [<- | [<- | [<- | []]]]]; reflexivity.
Qed.

Lemma hint_silesia_media (p : str) :
  endswith (lower U (basename p)) ".zst" = true \/ lower U (basename p) = "mr" ->
  hint_silesia U p = MEDIA.
Proof.
  intros H. unfold hint_silesia.
  assert (E : endswith (lower U (basename p)) ".zst"
              || member (lower U (basename p)) (literals ["mr"]) = true).
  { destruct H as [-> | ->]; [ reflexivity | apply orb_true_r ]. }
  rewrite E. reflexivity.
Qed.

Lemma hint_silesia_generic (p : str) :
  ~ In (lower U (basename p)) (literals ["dickens"; "samba"; "webster"; "xml"]) ->
  endswith (lower U (basename p)) ".zst" = false ->
  lower U (basename p) <> "mr" ->
  hint_silesia U p = GENERIC.
Proof.
  intros T Z M. apply member_not_In in T. unfold hint_silesia. rewrite T, Z.
  assert (E : member (lower U (basename p)) (literals ["mr"]) = false).
  { apply member_not_In. intros [E | []]. now apply M. }
  now rewrite E.
Qed.

Lemma hint_real_range (f : str) :
  hint_real U f = GENERIC \/ hint_real U f = TEXT \/ hint_real U f = MEDIA.
Proof.
  unfold hint_real.
  destruct (member (extension U f) (literals ["jpg"; "mp4"; "zip"])); [ now right; right | ].
  destruct (member (extension U f) (literals ["txt"; "csv"; "js"; "md"]));
    [ now right; left | now left ].
Qed.

Lemma hint_silesia_range (p : str) :
  hint_silesia U p = GENERIC \/ hint_silesia U p = TEXT \/ hint_silesia U p = MEDIA.
Proof.
  unfold hint_silesia.
  destruct (endswith (lower U (basename p)) ".zst"
            || member (lower U (basename p)) (literals ["mr"]));
    [ now right; right | ].
  destruct (member (lower U (basename p)) (literals ["dickens"; "samba"; "webster"; "xml"]));
    [ now right; left | now left ].
Qed.

(** ** File names without a dot *)

Lemma split_no_sep (sep : code_point) (s : str) :
  has_char sep s = false -> split sep s = [s].
Proof.
  induction s as [ | c s IH]; [ reflexivity | ].
  cbn [has_char split]. destruct (N.eqb c sep); [ discriminate | ].
  intros H. now rewrite IH.
Qed.

Lemma extension_no_dot (f : str) :
  has_char "." f = false -> extension U f = lower U f.
Proof.
  intros H. unfold extension. now rewrite split_no_sep.
Qed.

End HintFacts.

Section RacerFacts.

Local Open Scope Z_scope.

Variable U : unicode.

(** ** The codec race *)

Lemma decide_range (o a b : Z) :
  decide o a b = ALGO_A \/ decide o a b = ALGO_B \/ decide o a b = NO_COMPRESSION.
Proof.
  unfold decide.
  destruct (PyFloat.int_gt _ _); [ now right; right | ].
  destruct (PyFloat.int_lt _ _); [ now left | now right; left ].
Qed.

Lemma len_nonempty {A} (data : list A) : data <> [] -> (len data =? 0) = false.
Proof.
  intros N. destruct data as [ | x data]; [ contradiction | ].
  apply Z.eqb_neq. unfold len. cbn [List.length]. lia.
Qed.

(** [get_best_algo] in closed form on a non-empty file: Brotli's failure is
    absorbed, Zstd's is not. *)
Lemma get_best_algo_closed (cs : codecs) (data : list byte) (log : list call) :
  data <> [] ->
  get_best_algo cs data log =
  (match zstd_compress cs 3 data with
   | Some out =>
       Ok (decide (len data)
             (size_or_original data (brotli_compress cs BROTLI_DEFAULT_QUALITY data))
             (len out))
   | None => Raised ZstdError
   end,
   log ++ [CallBrotli BROTLI_DEFAULT_QUALITY; CallZstd 3]).
Proof.
  intros N. unfold get_best_algo. rewrite (len_nonempty data N).
  unfold bind, try_except, brotli, zstd, ret, size_or_original.
  destruct (brotli_compress cs BROTLI_DEFAULT_QUALITY data);
    destruct (zstd_compress cs 3 data); cbn [app]; rewrite <- app_assoc; reflexivity.
Qed.

Lemma get_best_label_closed (cs : codecs) (data : list byte) (log : list call) :
  data <> [] ->
  get_best_label cs data log =
  (match zstd_compress cs 3 data with
   | Some out =>
       Ok (decide (len data) (size_or_original data (brotli_compress cs 4 data)) (len out))
   | None => Raised ZstdError
   end,
   log ++ [CallBrotli 4; CallZstd 3]).
Proof.
  intros N. unfold get_best_label. rewrite (len_nonempty data N).
  unfold bind, try_except, brotli, zstd, ret, size_or_original.
  destruct (brotli_compress cs 4 data);
    destruct (zstd_compress cs 3 data); cbn [app]; rewrite <- app_assoc; reflexivity.
Qed.

Lemma get_best_algo_empty (cs : codecs) (log : list call) :
  get_best_algo cs [] log = (Ok NO_COMPRESSION, log).
Proof. reflexivity. Qed.

Lemma get_best_label_empty (cs : codecs) (log : list call) :
  get_best_label cs [] log = (Ok NO_COMPRESSION, log).
Proof. reflexivity. Qed.

Lemma label_range_algo (cs : codecs) (data : list byte) (log : list call) (l : Z) :
  fst (get_best_algo cs data log) = Ok l ->
  l = ALGO_A \/ l = ALGO_B \/ l = NO_COMPRESSION.
Proof.
  destruct data as [ | b data].
  - rewrite get_best_algo_empty. cbn. intros [= <-]. now right; right.
  - rewrite get_best_algo_closed by discriminate. cbn [fst].
    destruct (zstd_compress cs 3 (b :: data)); [ | discriminate ].
    intros [= <-]. apply decide_range.
Qed.

Lemma label_range_label (cs : codecs) (data : list byte) (log : list call) (l : Z) :
  fst (get_best_label cs data log) = Ok l ->
  l = ALGO_A \/ l = ALGO_B \/ l = NO_COMPRESSION.
Proof.
  destruct data as [ | b data].
  - rewrite get_best_label_empty. cbn. intros [= <-]. now right; right.
  - rewrite get_best_label_closed by discriminate. cbn [fst].
    destruct (zstd_compress cs 3 (b :: data)); [ | discriminate ].
    intros [= <-]. apply decide_range.
Qed.

(** ** The feature rows *)

Lemma log10_1 : log10 1 = 0%R.
Proof. unfold log10. rewrite ln_1. unfold Rdiv. ring. Qed.

Lemma features_real_layout (filename : str) (data : list byte) :
  exists cs,
    chunks data = Some cs /\
    features_real U filename data =
    Some [avg_entropy_real cs; log10 (IZR (len data + 1)); IZR (hint_real U filename)].
Proof.
  unfold features_real. rewrite chunks_windows. eexists. split; reflexivity.
Qed.

Lemma extract_features_layout (file_path : str) (data : list byte) :
  exists cs,
    chunks data = Some cs /\
    extract_features U file_path data =
    Some [avg_entropy_silesia cs; log10 (IZR (len data + 1)); IZR (hint_silesia U file_path)].
Proof.
  unfold extract_features. rewrite chunks_windows. eexists. split; reflexivity.
Qed.

Lemma features_real_empty (filename : str) :
  features_real U filename [] = Some [0%R; 0%R; IZR (hint_real U filename)].
Proof.
  unfold features_real. rewrite chunks_empty_file.
  destruct (all_empty_average [[]; []; []]) as (A & _); [ repeat constructor | ].
  rewrite A. change (IZR (len [] + 1)) with 1%R. rewrite log10_1. reflexivity.
Qed.

Lemma extract_features_empty (file_path : str) :
  extract_features U file_path [] = Some [0%R; 0%R; IZR (hint_silesia U file_path)].
Proof.
  unfold extract_features. rewrite chunks_empty_file.
  change (avg_entropy_silesia [[]; []; []]) with 0%R.
  change (IZR (len [] + 1)) with 1%R. rewrite log10_1. reflexivity.
Qed.

End RacerFacts.

(* ================================================================== *)
(** * The claims *)
(* ================================================================== *)

Section LabelPolicy.

Local Open Scope Z_scope.

(** Beyond the size bound the float product is rounded to a grid coarser
    than the comparison needs: a size near [1.4e15] takes the branch that
    exact arithmetic on [19/20] would not take. *)
Remark rounding_beyond_size_bound :
  let n := 20 * 2 ^ 46 + 1 in
  let x := 19 * 2 ^ 46 + 1 in
  PyFloat.int_gt x (PyFloat.int_mul n PyFloat.lit_0_95) = false /\
  (95 * n <? 100 * x) = true.
Proof. vm_compute. split; reflexivity. Qed.

(** C1. The label decision is a function of the three sizes.  For a
    positive original size it is [NO_COMPRESSION] exactly when
    [min(sizeA, sizeB) > originalSize * 0.95]; failing that it is [ALGO_A]
    exactly when [sizeA < sizeB * 0.98]; and [ALGO_B] in every remaining
    case.  The two tests are the code's binary64 comparisons; for sizes
    below [2^47] bytes they coincide with the exact comparisons against
    95/100 and 98/100.  The three boundary examples evaluate as stated. *)
Theorem label_decision (originalSize sizeA sizeB : Z) :
  0 < originalSize ->
  let saves_too_little :=
    PyFloat.int_gt (Z.min sizeA sizeB) (PyFloat.int_mul originalSize PyFloat.lit_0_95) in
  let a_beats_b :=
    PyFloat.int_lt sizeA (PyFloat.int_mul sizeB PyFloat.lit_0_98) in
  (decide originalSize sizeA sizeB = NO_COMPRESSION <-> saves_too_little = true) /\
  (saves_too_little = false ->
   (decide originalSize sizeA sizeB = ALGO_A <-> a_beats_b = true)) /\
  (saves_too_little = false -> a_beats_b = false ->
   decide originalSize sizeA sizeB = ALGO_B) /\
  (originalSize < 2 ^ 47 -> 0 <= sizeA < 2 ^ 47 -> 0 <= sizeB < 2 ^ 47 ->
   (saves_too_little = true <-> 95 * originalSize < 100 * Z.min sizeA sizeB) /\
   (a_beats_b = true <-> 100 * sizeA < 98 * sizeB)) /\
  decide 1000 960 900 = ALGO_B /\
  decide 1000 850 900 = ALGO_A /\
  decide 1000 960 970 = NO_COMPRESSION.
Proof.
  intros Ho saves_too_little a_beats_b.
  assert (D : decide originalSize sizeA sizeB =
              if saves_too_little then 2 else if a_beats_b then 0 else 1) by reflexivity.
  unfold NO_COMPRESSION, ALGO_A, ALGO_B.
  split; [ | split; [ | split; [ | split ] ] ].
  - rewrite D. destruct saves_too_little; [ easy | ].
    destruct a_beats_b; split; discriminate.
  - intros S. rewrite D, S. destruct a_beats_b; split; easy.
  - intros S A. now rewrite D, S, A.
  - intros Hb Ha Hz. subst saves_too_little a_beats_b.
    rewrite int_gt_0_95 by lia. rewrite int_lt_0_98 by lia.
    split; apply Z.ltb_lt.
  - vm_compute. repeat split; reflexivity.
Qed.

Lemma label_decision_witness :
  0 < 1000 /\
  (PyFloat.int_gt (Z.min 960 900) (PyFloat.int_mul 1000 PyFloat.lit_0_95) = true
   <-> 95 * 1000 < 100 * Z.min 960 900) /\
  (PyFloat.int_lt 960 (PyFloat.int_mul 900 PyFloat.lit_0_98) = true
   <-> 100 * 960 < 98 * 900) /\
  decide 1000 960 900 = ALGO_B.
Proof.
  assert (H : 0 < 1000) by lia.
  pose proof (label_decision 1000 960 900 H) as (_ & _ & B & Q & _).
  split; [ exact H | ].
  assert (Q' := Q ltac:(lia) ltac:(lia) ltac:(lia)).
  split; [ exact (proj1 Q') | split; [ exact (proj2 Q') | ] ].
  apply B; reflexivity.
Defined.

End LabelPolicy.

Section AlgorithmRacer.

Local Open Scope Z_scope.

(** Both races on a non-empty file, in closed form.  Brotli is called
    first and its failure is absorbed: its size is reported as the
    original size and Zstd is still called.  Zstd's call is not guarded:
    when it fails, [ZstdError] reaches the caller. *)
Lemma race_outcomes (cs : codecs) (data : list byte) :
  data <> [] ->
  run (get_best_algo cs data) =
    (match zstd_compress cs 3 data with
     | Some out =>
         Ok (decide (len data)
               (size_or_original data (brotli_compress cs BROTLI_DEFAULT_QUALITY data))
               (len out))
     | None => Raised ZstdError
     end, [CallBrotli BROTLI_DEFAULT_QUALITY; CallZstd 3]) /\
  run (get_best_label cs data) =
    (match zstd_compress cs 3 data with
     | Some out =>
         Ok (decide (len data)
               (size_or_original data (brotli_compress cs 4 data))
               (len out))
     | None => Raised ZstdError
     end, [CallBrotli 4; CallZstd 3]).
Proof.
  intros N. unfold run. split.
  - now rewrite get_best_algo_closed.
  - now rewrite get_best_label_closed.
Qed.

(** A failing Brotli on the four-byte file [abcd]: the race goes on with
    Brotli's size reported as 4. *)
Example brotli_failure_is_absorbed :
  run (get_best_algo brotli_failing_codecs [x61; x62; x63; x64]) =
    (Ok (decide 4 4 2), [CallBrotli 11; CallZstd 3]) /\
  run (get_best_label brotli_failing_codecs [x61; x62; x63; x64]) =
    (Ok (decide 4 4 2), [CallBrotli 4; CallZstd 3]).
Proof. exact (race_outcomes brotli_failing_codecs [x61; x62; x63; x64] ltac:(discriminate)). Qed.

(** C2. The claim asks that a failure of either codec be reported as the
    original size and never reach the caller.  The code does this for
    Brotli only.  On the one-byte file [00] with a Zstd that fails, both
    ground-truth functions raise [ZstdError] after both codecs were
    called, where the claim asks for the decision on the sizes (1, 1, 1):
    the claim as stated does not hold of the code. *)
Theorem zstd_failure_reaches_caller :
  run (get_best_algo zstd_failing_codecs [x00]) =
    (Raised ZstdError, [CallBrotli 11; CallZstd 3]) /\
  run (get_best_label zstd_failing_codecs [x00]) =
    (Raised ZstdError, [CallBrotli 4; CallZstd 3]) /\
  ~ codec_isolation_as_stated.
Proof.
  split; [ reflexivity | split; [ reflexivity | ] ].
  intros H. destruct (H zstd_failing_codecs [x00] ltac:(discriminate)) as [A _].
  discriminate A.
Qed.

(** C3. For the zero-length file, whatever its name and whatever the
    codecs: both ground-truth functions return [NO_COMPRESSION] with an
    empty call log, so neither codec was invoked; and both feature
    builders produce [[0, 0, hint]], where only the hint depends on the
    file name. *)
Theorem zero_length_file (cs : codecs) (U : unicode) (filename : str) :
  run (get_best_algo cs []) = (Ok NO_COMPRESSION, []) /\
  run (get_best_label cs []) = (Ok NO_COMPRESSION, []) /\
  features_real U filename [] = Some [0%R; 0%R; IZR (hint_real U filename)] /\
  extract_features U filename [] = Some [0%R; 0%R; IZR (hint_silesia U filename)].
Proof.
  split; [ reflexivity | split; [ reflexivity | split ] ].
  - apply features_real_empty.
  - apply extract_features_empty.
Qed.

(** C9, counterexample.  On twenty zero bytes, with a Brotli whose output
    at quality 11 is smaller than at quality 4, [get_best_algo] answers
    Brotli and [get_best_label] answers Zstd; the call logs show the two
    Brotli qualities. *)
Lemma variants_differ_on_brotli_quality :
  run (get_best_algo quality_sensitive_codecs (repeat x00 20)) =
    (Ok ALGO_A, [CallBrotli 11; CallZstd 3]) /\
  run (get_best_label quality_sensitive_codecs (repeat x00 20)) =
    (Ok ALGO_B, [CallBrotli 4; CallZstd 3]) /\
  ~ variants_equal_as_stated.
Proof.
  assert (A : run (get_best_algo quality_sensitive_codecs (repeat x00 20)) =
              (Ok ALGO_A, [CallBrotli 11; CallZstd 3])) by (vm_compute; reflexivity).
  assert (B : run (get_best_label quality_sensitive_codecs (repeat x00 20)) =
              (Ok ALGO_B, [CallBrotli 4; CallZstd 3])) by (vm_compute; reflexivity).
  split; [ exact A | split; [ exact B | ] ].
  intros H. specialize (H quality_sensitive_codecs (repeat x00 20)).
  rewrite A, B in H. discriminate H.
Qed.

(** C9, amended.  Both functions run Zstd at level 3 and apply the same
    decision, but Brotli runs at its default quality in [get_best_algo]
    and at quality 4 in [get_best_label].  They return the same outcome
    whenever Brotli's reported size is the same at the two qualities. *)
Theorem variants_agree_up_to_brotli_quality (cs : codecs) (data : list byte) :
  size_or_original data (brotli_compress cs BROTLI_DEFAULT_QUALITY data) =
  size_or_original data (brotli_compress cs 4 data) ->
  fst (run (get_best_algo cs data)) = fst (run (get_best_label cs data)) /\
  snd (run (get_best_algo cs data)) =
    (if len data =? 0 then [] else [CallBrotli BROTLI_DEFAULT_QUALITY; CallZstd 3]) /\
  snd (run (get_best_label cs data)) =
    (if len data =? 0 then [] else [CallBrotli 4; CallZstd 3]).
Proof.
  intros E. destruct data as [ | b data]; [ repeat split | ].
  destruct (race_outcomes cs (b :: data) ltac:(discriminate)) as [A B].
  rewrite A, B, E. cbn [fst snd].
  rewrite len_nonempty by discriminate. repeat split.
Qed.

Lemma variants_agree_witness :
  size_or_original [x61; x62] (brotli_compress identity_codecs BROTLI_DEFAULT_QUALITY [x61; x62]) =
  size_or_original [x61; x62] (brotli_compress identity_codecs 4 [x61; x62]) /\
  fst (run (get_best_algo identity_codecs [x61; x62])) =
  fst (run (get_best_label identity_codecs [x61; x62])).
Proof.
  assert (E : size_or_original [x61; x62]
                (brotli_compress identity_codecs BROTLI_DEFAULT_QUALITY [x61; x62]) =
              size_or_original [x61; x62] (brotli_compress identity_codecs 4 [x61; x62]))
    by reflexivity.
  split; [ exact E | ].
  exact (proj1 (variants_agree_up_to_brotli_quality identity_codecs [x61; x62] E)).
Defined.

End AlgorithmRacer.

Section EntropyEstimator.

Local Open Scope R_scope.

(** C4. For every byte chunk, [get_entropy] (and [calculate_entropy],
    which has the same body) equals the Shannon entropy of the chunk's
    256-bin histogram; it lies between 0 and 8; it is 0 on the empty
    chunk and on every constant buffer of positive length; and it is 8 on
    a chunk that holds each of the 256 byte values exactly once. *)
Theorem entropy_contract (c : list byte) :
  get_entropy c = shannon_entropy c /\
  calculate_entropy c = shannon_entropy c /\
  0 <= get_entropy c <= 8 /\
  (c = [] -> get_entropy c = 0) /\
  ((exists b n, (0 < n)%nat /\ c = repeat b n) -> get_entropy c = 0) /\
  ((forall x, (x < 256)%nat -> count c x = 1%nat) -> get_entropy c = 8).
Proof.
  split; [ apply get_entropy_shannon | ].
  split; [ rewrite calculate_entropy_eq; apply get_entropy_shannon | ].
  split; [ | split; [ | split ] ].
  - destruct c as [ | b c]; [ cbn; lra | ]. apply entropy_range. discriminate.
  - intros ->. reflexivity.
  - intros (b & n & Hn & ->). now apply entropy_constant.
  - apply entropy_uniform.
Qed.

Lemma entropy_contract_witness :
  get_entropy [] = 0 /\
  get_entropy (repeat x41 3) = 0 /\
  get_entropy all_bytes = 8.
Proof.
  split; [ | split ].
  - destruct (entropy_contract []) as (_ & _ & _ & H & _ & _).
    apply H. reflexivity.
  - destruct (entropy_contract (repeat x41 3)) as (_ & _ & _ & _ & H & _).
    apply H. exists x41, 3%nat. split; [ lia | reflexivity ].
  - destruct (entropy_contract all_bytes) as (_ & _ & _ & _ & _ & H).
    apply H.
    assert (F : forallb (fun x => Nat.eqb (count all_bytes x) 1) (seq 0 256) = true)
      by (vm_compute; reflexivity).
    intros x Hx. apply Nat.eqb_eq.
    apply (proj1 (forallb_forall _ _) F). apply in_seq. lia.
Defined.

(** C5. The average entropy is the arithmetic mean of the entropies of the
    non-empty chunks, and 0 when every chunk is empty: the filtered average
    of train_silesia.py on every list of chunks, and both variants'
    averages on the head/mid/tail sample of every file. *)
Theorem average_entropy (cs : list (list byte)) (data : list byte) :
  avg_entropy_silesia cs = mean_entropy_of_nonempty cs /\
  (exists sample,
      chunks data = Some sample /\
      avg_entropy_real sample = mean_entropy_of_nonempty sample /\
      avg_entropy_silesia sample = mean_entropy_of_nonempty sample) /\
  (Forall (fun c => c = []) cs ->
   avg_entropy_real cs = 0 /\ avg_entropy_silesia cs = 0).
Proof.
  split; [ apply avg_entropy_silesia_mean | ].
  split; [ apply sampled_average | ].
  intros A. destruct (all_empty_average cs A) as (R0 & S0 & _). now split.
Qed.

Lemma average_entropy_witness :
  Forall (fun c : list byte => c = []) [[]; []; []] /\
  avg_entropy_real [[]; []; []] = 0 /\ avg_entropy_silesia [[]; []; []] = 0.
Proof.
  assert (A : Forall (fun c : list byte => c = []) [[]; []; []])
    by (repeat constructor).
  split; [ exact A | ].
  exact (proj2 (proj2 (average_entropy [[]; []; []] [])) A).
Defined.

End EntropyEstimator.

Section ChunkSampler.

Local Open Scope Z_scope.

(** C6, counterexample.  On the two-byte file [ab] the middle chunk is
    [b], read from offset 1, not the whole file. *)
Lemma small_file_mid_chunk_is_a_suffix :
  0 < len [x61; x62] < CHUNK_SIZE /\
  chunks [x61; x62] = Some [[x61; x62]; [x62]; [x61; x62]] /\
  ~ small_file_chunks_as_stated.
Proof.
  assert (L : 0 < len [x61; x62] < CHUNK_SIZE) by (vm_compute; split; reflexivity).
  split; [ exact L | split; [ reflexivity | ] ].
  intros H. specialize (H [x61; x62] L). discriminate H.
Qed.

(** C6, amended.  On a file of size [S] with [0 < S < 16384] the sampler
    succeeds and returns three chunks: the head and the tail are the whole
    file, and the middle chunk is the part of the file from offset [S / 2]
    to its end, which is the whole file only when [S = 1]; no read goes
    past the end. *)
Theorem small_file_chunks (data : list byte) :
  0 < len data < 16384 ->
  chunks data = Some [data; skipn (Z.to_nat (len data / 2)) data; data] /\
  (skipn (Z.to_nat (len data / 2)) data = data <-> len data = 1).
Proof.
  intros H. split; [ now apply chunks_small_file | ].
  assert (H2 : 0 <= len data / 2 < len data)
    by (split; [ apply Z.div_pos | apply Z.div_lt ]; lia).
  split.
  - intros E. apply (f_equal (@List.length byte)) in E.
    rewrite length_skipn in E. unfold len in *.
    assert (Z0 : Z.of_nat (List.length data) / 2 = 0) by lia.
    apply Z.div_small_iff in Z0; lia.
  - intros E. rewrite E. reflexivity.
Qed.

Lemma small_file_chunks_witness :
  0 < len [x61; x62; x63] < 16384 /\
  chunks [x61; x62; x63] = Some [[x61; x62; x63]; [x62; x63]; [x61; x62; x63]].
Proof.
  assert (L : 0 < len [x61; x62; x63] < 16384) by (vm_compute; split; reflexivity).
  split; [ exact L | ].
  exact (proj1 (small_file_chunks [x61; x62; x63] L)).
Defined.

End ChunkSampler.

Section TypeHintClassifier.

Local Open Scope string_scope.

(** C7, counterexample.  The two classifiers do not share one rule set:
    the extension classifier of train_real_model.py gives [GENERIC] to the
    allow-listed name [dickens], and the base-name classifier of
    train_silesia.py gives [GENERIC] to [notes.txt]. *)
Lemma hint_rules_are_per_variant :
  hint_real unicode_fragment "dickens" = GENERIC /\
  hint_silesia unicode_fragment "notes.txt" = GENERIC /\
  ~ type_hint_rules_as_stated hint_real /\
  ~ type_hint_rules_as_stated hint_silesia.
Proof.
  split; [ reflexivity | ]. split; [ reflexivity | ]. split.
  - intros H. destruct (H unicode_fragment "dickens") as (_ & _ & T & _).
    discriminate T. cbn. tauto.
  - intros H. destruct (H unicode_fragment "notes.txt") as (T & _).
    discriminate T. cbn. tauto.
Qed.

(** C7, amended.  Each variant has its own classifier, a total function
    of the file name with values in [{GENERIC, TEXT, MEDIA}] that matches
    its tables after [str.lower()], so that names of ASCII characters
    which differ in letter case only get the same hint.  By extension
    (train_real_model.py): [txt], [csv], [js], [md] give [TEXT]; [jpg],
    [mp4], [zip] give [MEDIA]; anything else gives [GENERIC].  By base
    name (train_silesia.py): [dickens], [samba], [webster], [xml] give
    [TEXT]; a name ending in [.zst] or equal to [mr] gives [MEDIA];
    anything else gives [GENERIC]. *)
Theorem type_hint_classifier (U : unicode) (f g : str) :
  (hint_real U f = GENERIC \/ hint_real U f = TEXT \/ hint_real U f = MEDIA) /\
  (hint_silesia U f = GENERIC \/ hint_silesia U f = TEXT \/ hint_silesia U f = MEDIA) /\
  (forallb is_ascii f = true -> map ascii_lower f = map ascii_lower g ->
   hint_real U f = hint_real U g /\ hint_silesia U f = hint_silesia U g) /\
  (In (extension U f) (literals ["txt"; "csv"; "js"; "md"]) -> hint_real U f = TEXT) /\
  (In (extension U f) (literals ["jpg"; "mp4"; "zip"]) -> hint_real U f = MEDIA) /\
  (~ In (extension U f) (literals ["txt"; "csv"; "js"; "md"]) ->
   ~ In (extension U f) (literals ["jpg"; "mp4"; "zip"]) -> hint_real U f = GENERIC) /\
  (In (lower U (basename f)) (literals ["dickens"; "samba"; "webster"; "xml"]) ->
   hint_silesia U f = TEXT) /\
  (endswith (lower U (basename f)) ".zst" = true \/ lower U (basename f) = "mr" ->
   hint_silesia U f = MEDIA) /\
  (~ In (lower U (basename f)) (literals ["dickens"; "samba"; "webster"; "xml"]) ->
   endswith (lower U (basename f)) ".zst" = false -> lower U (basename f) <> "mr" ->
   hint_silesia U f = GENERIC).
Proof.
  split; [ apply hint_real_range | ].
  split; [ apply hint_silesia_range | ].
  split.
  { intros A E. split.
    - now apply hint_real_ascii_case.
    - now apply hint_silesia_ascii_case. }
  split; [ apply hint_real_text | ].
  split; [ apply hint_real_media | ].
  split; [ apply hint_real_generic | ].
  split; [ apply hint_silesia_text | ].
  split; [ apply hint_silesia_media | apply hint_silesia_generic ].
Qed.

Lemma type_hint_classifier_witness :
  hint_real unicode_fragment "Notes.TXT" = hint_real unicode_fragment "notes.txt" /\
  hint_real unicode_fragment "Notes.TXT" = TEXT /\
  hint_real unicode_fragment "clip.Mp4" = MEDIA /\
  hint_real unicode_fragment "a.out" = GENERIC /\
  hint_silesia unicode_fragment "dataset/silesia/Dickens" = TEXT /\
  hint_silesia unicode_fragment (literal "dic" ++ [KELVIN_SIGN] ++ literal "ens")%list = TEXT /\
  hint_silesia unicode_fragment "synthetic_compressed/xml.zst" = MEDIA /\
  hint_silesia unicode_fragment "dataset/silesia/mr" = MEDIA /\
  hint_silesia unicode_fragment "dataset/silesia/nci" = GENERIC.
Proof.
  split.
  { destruct (type_hint_classifier unicode_fragment "Notes.TXT" "notes.txt")
      as (_ & _ & H & _).
    apply H; reflexivity. }
  split.
  { destruct (type_hint_classifier unicode_fragment "Notes.TXT" "")
      as (_ & _ & _ & H & _).
    apply H. vm_compute. tauto. }
  split.
  { destruct (type_hint_classifier unicode_fragment "clip.Mp4" "")
      as (_ & _ & _ & _ & H & _).
    apply H. vm_compute. tauto. }
  split.
  { destruct (type_hint_classifier unicode_fragment "a.out" "")
      as (_ & _ & _ & _ & _ & H & _).
    apply H; vm_compute; intuition discriminate. }
  split.
  { destruct (type_hint_classifier unicode_fragment "dataset/silesia/Dickens" "")
      as (_ & _ & _ & _ & _ & _ & H & _).
    apply H. vm_compute. tauto. }
  split.
  { destruct (type_hint_classifier unicode_fragment
                (literal "dic" ++ [KELVIN_SIGN] ++ literal "ens")%list "")
      as (_ & _ & _ & _ & _ & _ & H & _).
    apply H. vm_compute. tauto. }
  split.
  { destruct (type_hint_classifier unicode_fragment "synthetic_compressed/xml.zst" "")
      as (_ & _ & _ & _ & _ & _ & _ & H & _).
    apply H. left. reflexivity. }
  split.
  { destruct (type_hint_classifier unicode_fragment "dataset/silesia/mr" "")
      as (_ & _ & _ & _ & _ & _ & _ & H & _).
    apply H. right. reflexivity. }
  destruct (type_hint_classifier unicode_fragment "dataset/silesia/nci" "")
    as (_ & _ & _ & _ & _ & _ & _ & _ & H).
  apply H; vm_compute; intuition discriminate.
Defined.

(** C10. A file name without a dot is its own extension: [split('.')]
    returns the name alone, so a file named [txt], [csv], [js] or [md] (in
    any letter case) is classified [TEXT] and one named [jpg], [mp4] or
    [zip] is classified [MEDIA], not [GENERIC]. *)
Theorem dotless_name_is_extension (U : unicode) (f : str) :
  has_char "." f = false ->
  extension U f = lower U f /\
  (In (lower U f) (literals ["txt"; "csv"; "js"; "md"]) -> hint_real U f = TEXT) /\
  (In (lower U f) (literals ["jpg"; "mp4"; "zip"]) -> hint_real U f = MEDIA) /\
  hint_real U "txt" = TEXT /\ hint_real U "csv" = TEXT /\
  hint_real U "js" = TEXT /\ hint_real U "md" = TEXT /\
  hint_real U "jpg" = MEDIA /\ hint_real U "mp4" = MEDIA /\ hint_real U "zip" = MEDIA.
Proof.
  intros H. pose proof (extension_no_dot U f H) as E.
  split; [ exact E | ].
  split; [ rewrite <- E; apply hint_real_text | ].
  split; [ rewrite <- E; apply hint_real_media | ].
  repeat split.
Qed.

Lemma dotless_name_is_extension_witness :
  has_char "." "ZIP" = false /\ extension unicode_fragment "ZIP" = "zip" /\
  hint_real unicode_fragment "ZIP" = MEDIA.
Proof.
  assert (H : has_char "." "ZIP" = false) by reflexivity.
  destruct (dotless_name_is_extension unicode_fragment "ZIP" H) as (E & _ & M & _).
  split; [ exact H | split; [ exact E | ] ].
  apply M. vm_compute. tauto.
Defined.

End TypeHintClassifier.

Section FeatureBuilder.

Local Open Scope Z_scope.

(** C8. In both training variants a feature row has exactly three values,
    in the order average entropy, [log10(fileSize + 1)], type hint, the
    hint being one of the integers 0, 1, 2; and every label that a
    ground-truth function returns is one of 0 (Brotli), 1 (Zstd),
    2 (none). *)
Theorem feature_and_label_layout
    (cs : codecs) (U : unicode) (filename : str) (data : list byte) (label : Z) :
  (exists sample hint,
      chunks data = Some sample /\
      features_real U filename data =
        Some [avg_entropy_real sample; log10 (IZR (len data + 1)); IZR hint] /\
      hint = hint_real U filename /\ (hint = 0 \/ hint = 1 \/ hint = 2)) /\
  (exists sample hint,
      chunks data = Some sample /\
      extract_features U filename data =
        Some [avg_entropy_silesia sample; log10 (IZR (len data + 1)); IZR hint] /\
      hint = hint_silesia U filename /\ (hint = 0 \/ hint = 1 \/ hint = 2)) /\
  (fst (run (get_best_algo cs data)) = Ok label \/
   fst (run (get_best_label cs data)) = Ok label ->
   label = 0 \/ label = 1 \/ label = 2) /\
  ALGO_A = 0 /\ ALGO_B = 1 /\ NO_COMPRESSION = 2.
Proof.
  split.
  { destruct (features_real_layout U filename data) as (sample & C & F).
    exists sample, (hint_real U filename). repeat split; try assumption.
    apply hint_real_range. }
  split.
  { destruct (extract_features_layout U filename data) as (sample & C & F).
    exists sample, (hint_silesia U filename). repeat split; try assumption.
    apply hint_silesia_range. }
  split; [ | repeat split ].
  intros [H | H].
  - apply (label_range_algo cs data [] label H).
  - apply (label_range_label cs data [] label H).
Qed.

Lemma feature_and_label_layout_witness :
  fst (run (get_best_algo identity_codecs [x61])) = Ok 2 /\
  (2 = 0 \/ 2 = 1 \/ 2 = 2).
Proof.
  assert (H : fst (run (get_best_algo identity_codecs [x61])) = Ok 2)
    by (vm_compute; reflexivity).
  split; [ exact H | ].
  destruct (feature_and_label_layout identity_codecs unicode_fragment "a.txt"%string [x61] 2) as (_ & _ & L & _).
  apply L. left. exact H.
Defined.

End FeatureBuilder.

(* ================================================================== *)
(** * Further properties of the code *)
(* ================================================================== *)

Section DecisionFacts.

Local Open Scope Z_scope.

(** ** What each label guarantees *)

(** The decision on sizes below [2^47], in exact arithmetic. *)
Lemma decide_exact (o a b : Z) :
  0 < o < 2 ^ 47 -> 0 <= a < 2 ^ 47 -> 0 <= b < 2 ^ 47 ->
  decide o a b =
  if 95 * o <? 100 * Z.min a b then NO_COMPRESSION
  else if 100 * a <? 98 * b then ALGO_A else ALGO_B.
Proof.
  intros Ho Ha Hb. unfold decide.
  rewrite int_gt_0_95 by lia. rewrite int_lt_0_98 by lia. reflexivity.
Qed.

Lemma label_guarantees_aux (o a b : Z) :
  0 < o < 2 ^ 47 -> 0 <= a < 2 ^ 47 -> 0 <= b < 2 ^ 47 ->
  (decide o a b = ALGO_A -> a < b /\ 100 * a <= 95 * o) /\
  (decide o a b = ALGO_B -> 98 * b <= 100 * a /\ 98 * b <= 95 * o) /\
  (decide o a b = NO_COMPRESSION -> 95 * o < 100 * a /\ 95 * o < 100 * b).
Proof.
  intros Ho Ha Hb. rewrite decide_exact by assumption.
  unfold ALGO_A, ALGO_B, NO_COMPRESSION.
  destruct (Z.ltb_spec (95 * o) (100 * Z.min a b));
    destruct (Z.ltb_spec (100 * a) (98 * b)); repeat split; intros; try discriminate; lia.
Qed.

Lemma never_brotli_aux (o a b : Z) :
  0 < o < 2 ^ 47 -> 0 <= a < 2 ^ 47 -> 0 <= b < 2 ^ 47 ->
  b <= a -> decide o a b <> ALGO_A.
Proof.
  intros Ho Ha Hb L E. destruct (label_guarantees_aux o a b Ho Ha Hb) as (A & _). 
  apply A in E. lia.
Qed.

End DecisionFacts.

Section WindowFacts.

Local Open Scope Z_scope.

(** ** Windows of the sampler as slices of the file *)

Lemma firstn_slice {A} (n : nat) (l : list A) :
  l = firstn n l ++ skipn n l /\
  List.length (firstn n l) = Nat.min n (List.length l).
Proof. split; [ symmetry; apply firstn_skipn | apply length_firstn ]. Qed.

(** The window of [n] bytes at offset [k] of [l]. *)
Lemma window_slice {A} (k n : nat) (l : list A) :
  (k <= List.length l)%nat ->
  l = firstn k l ++ firstn n (skipn k l) ++ skipn n (skipn k l) /\
  List.length (firstn k l) = k /\
  List.length (firstn n (skipn k l)) = Nat.min n (List.length l - k).
Proof.
  intros H. repeat split.
  - rewrite firstn_skipn, firstn_skipn. reflexivity.
  - rewrite length_firstn. lia.
  - rewrite length_firstn, length_skipn. reflexivity.
Qed.

(** A byte changed outside a window leaves the window as it is. *)
Lemma window_before_change {A} (k n : nat) (a b : list A) (x y : A) :
  (k + n <= List.length a)%nat ->
  firstn n (skipn k (a ++ x :: b)) = firstn n (skipn k (a ++ y :: b)).
Proof.
  intros H. rewrite !skipn_app, !firstn_app, !length_skipn.
  replace (n - (List.length a - k))%nat with 0%nat by lia. reflexivity.
Qed.

Lemma window_after_change {A} (k n : nat) (a b : list A) (x y : A) :
  (List.length a < k)%nat ->
  firstn n (skipn k (a ++ x :: b)) = firstn n (skipn k (a ++ y :: b)).
Proof.
  intros H. rewrite !skipn_app.
  rewrite (skipn_all2 a) by lia.
  destruct (k - List.length a)%nat as [ | j] eqn:E; [ lia | reflexivity ].
Qed.

Lemma len_app {A} (a b : list A) : len (a ++ b) = len a + len b.
Proof. unfold len. rewrite List.length_app. lia. Qed.

Lemma len_cons {A} (x : A) (b : list A) : len (x :: b) = 1 + len b.
Proof. unfold len. cbn [List.length]. lia. Qed.

Lemma len_nonneg {A} (a : list A) : 0 <= len a.
Proof. unfold len. lia. Qed.

Lemma chunks_change_outside (a b : list byte) (x y : byte) :
  let S := len a + 1 + len b in
  CHUNK_SIZE <= len a ->
  len a < S / 2 \/ S / 2 + CHUNK_SIZE <= len a ->
  len a < S - CHUNK_SIZE ->
  chunks (a ++ x :: b) = chunks (a ++ y :: b).
Proof.
  intros S H1 H2 H3. rewrite !chunks_windows.
  rewrite !len_app, !len_cons, !Z.add_assoc. fold S.
  pose proof (len_nonneg b) as Hb. pose proof (len_nonneg a) as Ha.
  assert (HS : 0 <= S / 2) by (apply Z.div_pos; subst S; lia).
  unfold len, CHUNK_SIZE in *.
  remember (Z.to_nat 16384) as W eqn:EW.
  assert (E1 : firstn W (a ++ x :: b) = firstn W (a ++ y :: b)).
  { apply (window_before_change 0 W a b x y). lia. }
  assert (E2 : forall k, (List.length a < k \/ k + W <= List.length a)%nat ->
                         firstn W (skipn k (a ++ x :: b)) = firstn W (skipn k (a ++ y :: b))).
  { intros k [L | L]; [ now apply window_after_change | now apply window_before_change ]. }
  rewrite E1, (E2 (Z.to_nat (S / 2))), (E2 (Z.to_nat (S - 16384))) by lia.
  reflexivity.
Qed.

(** The three windows for any window size and middle offset. *)
Lemma windows_nat {A} (W k : nat) (data : list A) :
  (k <= List.length data)%nat ->
  List.length (firstn W data) = Nat.min W (List.length data) /\
  List.length (firstn W (skipn k data)) = Nat.min W (List.length data - k) /\
  List.length (firstn W (skipn (List.length data - W) data))
    = Nat.min W (List.length data) /\
  (exists post, data = firstn W data ++ post) /\
  (exists pre post, data = pre ++ firstn W (skipn k data) ++ post /\
                    List.length pre = k) /\
  (exists pre, data = pre ++ firstn W (skipn (List.length data - W) data) /\
               List.length pre = (List.length data - W)%nat).
Proof.
  intros H.
  destruct (window_slice k W data H) as (A1 & P1 & L1).
  destruct (window_slice (List.length data - W) W data ltac:(lia)) as (A2 & P2 & L2).
  assert (T : skipn W (skipn (List.length data - W) data) = []).
  { apply skipn_all2. rewrite length_skipn. lia. }
  rewrite T, app_nil_r in A2.
  split; [ apply length_firstn | ].
  split; [ exact L1 | ].
  split; [ rewrite L2; lia | ].
  split; [ exists (skipn W data); symmetry; apply firstn_skipn | ].
  split; [ do 2 eexists; split; [ exact A1 | exact P1 ] | ].
  eexists. split; [ exact A2 | exact P2 ].
Qed.

Lemma cover_nat {A} (W : nat) (data : list A) :
  (List.length data <= 2 * W)%nat ->
  let tail := firstn W (skipn (List.length data - W) data) in
  data = firstn (List.length data - List.length tail) (firstn W data) ++ tail.
Proof.
  intros H tail.
  assert (T : tail = skipn (List.length data - W) data).
  { apply firstn_all2. rewrite length_skipn. lia. }
  rewrite T, length_skipn, firstn_firstn.
  replace (Nat.min (List.length data - (List.length data - (List.length data - W))) W)
    with (List.length data - W)%nat by lia.
  symmetry. apply firstn_skipn.
Qed.

(** The sample of any file is a non-empty list of chunks. *)
Lemma sampler_slices_nonempty (data : list byte) (cs : list (list byte)) :
  chunks data = Some cs -> cs <> [].
Proof. rewrite chunks_windows. intros H ->. discriminate H. Qed.

End WindowFacts.

Section ProportionFacts.

Local Open Scope nat_scope.

(** ** Entropy depends on the proportions of the byte values only *)

Lemma count_app (a b : list byte) (x : nat) :
  count (a ++ b) x = (count a x + count b x)%nat.
Proof. unfold count. rewrite map_app. apply count_occ_app. Qed.

Lemma count_concat_repeat (data : list byte) (k x : nat) :
  count (List.concat (repeat data k)) x = (k * count data x)%nat.
Proof.
  induction k as [ | k IH]; [ reflexivity | ].
  cbn [repeat List.concat]. rewrite count_app, IH. lia.
Qed.

Lemma length_concat_repeat {A} (data : list A) (k : nat) :
  List.length (List.concat (repeat data k)) = (k * List.length data)%nat.
Proof.
  induction k as [ | k IH]; [ reflexivity | ].
  cbn [repeat List.concat]. rewrite length_app, IH. lia.
Qed.

Lemma count_permutation (a b : list byte) (x : nat) :
  Permutation a b -> count a x = count b x.
Proof.
  intros P. unfold count.
  apply (Permutation_count_occ Nat.eq_dec); now apply Permutation_map.
Qed.

Local Open Scope R_scope.

Lemma prob_proportional (a b : list byte) (k : nat) :
  a <> [] -> (0 < k)%nat ->
  (forall x, count b x = (k * count a x)%nat) ->
  List.length b = (k * List.length a)%nat ->
  forall x, prob b x = prob a x.
Proof.
  intros Na Hk Hc Hl x. unfold prob. rewrite Hc, Hl, !mult_INR.
  pose proof (length_pos a Na). assert (0 < INR k) by now apply lt_0_INR.
  field. split; lra.
Qed.

Lemma entropy_proportional (a b : list byte) (k : nat) :
  (0 < k)%nat ->
  (forall x, count b x = (k * count a x)%nat) ->
  List.length b = (k * List.length a)%nat ->
  get_entropy b = get_entropy a.
Proof.
  intros Hk Hc Hl. destruct a as [ | a0 a].
  - destruct b; [ reflexivity | cbn in Hl; lia ].
  - assert (Nb : b <> []).
    { intros ->. cbn [List.length] in Hl. lia. }
    rewrite !get_entropy_terms by (assumption || discriminate).
    apply rsum_map_ext. intros x _. unfold term.
    rewrite (prob_proportional (a0 :: a) b k) by (assumption || discriminate).
    reflexivity.
Qed.

Lemma entropy_permutation (a b : list byte) :
  Permutation a b -> get_entropy a = get_entropy b.
Proof.
  intros P. symmetry. apply (entropy_proportional a b 1); [ lia | | ].
  - intros x. rewrite (count_permutation a b x P). lia.
  - rewrite (Permutation_length P). lia.
Qed.

Lemma entropy_repeated (data : list byte) (k : nat) :
  (0 < k)%nat -> get_entropy (List.concat (repeat data k)) = get_entropy data.
Proof.
  intros Hk. apply (entropy_proportional data _ k Hk).
  - intros x. apply count_concat_repeat.
  - apply length_concat_repeat.
Qed.

End ProportionFacts.

Section SupportFacts.

Local Open Scope R_scope.

(** ** Zero entropy *)

Lemma rsum_nonneg_zero {A} (f : A -> R) (xs : list A) :
  (forall x, In x xs -> 0 <= f x) ->
  rsum (map f xs) = 0 ->
  forall x, In x xs -> f x = 0.
Proof.
  induction xs as [ | y ys IH]; intros P Z x Hx; [ contradiction | ].
  cbn [map fold_right] in Z.
  assert (0 <= f y) by (apply P; now left).
  assert (0 <= rsum (map f ys)).
  { apply Rle_trans with (rsum (map (fun _ : A => 0) ys)).
    - rewrite rsum_map_const. lra.
    - apply rsum_map_le. intros z Hz. apply P. now right. }
  destruct Hx as [<- | Hx]; [ lra | ].
  apply IH; [ intros z Hz; apply P; now right | lra | exact Hx ].
Qed.

Lemma to_nat_injective (a b : byte) : Byte.to_nat a = Byte.to_nat b -> a = b.
Proof.
  intros E. pose proof (Byte.of_to_nat a) as Ha. rewrite E, Byte.of_to_nat in Ha.
  now injection Ha.
Qed.

Lemma map_to_nat_repeat (data : list byte) (b : byte) (n : nat) :
  map Byte.to_nat data = repeat (Byte.to_nat b) n -> data = repeat b n.
Proof.
  revert n. induction data as [ | c data IH]; intros [ | n] E; try discriminate.
  - reflexivity.
  - cbn [map repeat] in *. injection E as E1 E2.
    apply to_nat_injective in E1. subst c. f_equal. now apply IH.
Qed.

(** A bin that holds some but not all of the bytes contributes a
    positive term. *)
Lemma term_zero_full_bin (data : list byte) (x : nat) :
  data <> [] -> (0 < count data x)%nat -> term data x = 0 ->
  count data x = List.length data.
Proof.
  intros N C T. pose proof (length_pos data N) as L.
  pose proof (prob_range data N x) as [_ P1].
  assert (P0 : 0 < prob data x).
  { unfold prob. apply Rmult_lt_0_compat; [ now apply lt_0_INR | now apply Rinv_0_lt_compat ]. }
  unfold term in T. destruct (Rlt_dec 0 (prob data x)) as [_ | F]; [ | contradiction ].
  unfold log in T. pose proof ln_2_pos as L2.
  assert (Z : ln (prob data x) = 0).
  { assert (E : - prob data x * (ln (prob data x) / ln 2) * ln 2 = 0) by (rewrite T; ring).
    replace (- prob data x * (ln (prob data x) / ln 2) * ln 2)
      with (- prob data x * ln (prob data x)) in E by (field; lra).
    assert (Q : prob data x * ln (prob data x) = 0) by lra.
    apply Rmult_integral in Q. destruct Q; lra. }
  assert (P : prob data x = 1).
  { destruct (Req_dec (prob data x) 1) as [E | E]; [ exact E | ].
    exfalso. now apply (ln_neq_0 (prob data x) E P0). }
  unfold prob in P. apply INR_eq.
  apply Rmult_eq_reg_r with (r := / INR (List.length data)).
  - rewrite Rinv_r by lra. exact P.
  - apply Rinv_neq_0_compat. lra.
Qed.

Lemma entropy_zero_constant (data : list byte) :
  get_entropy data = 0 -> exists b n, data = repeat b n.
Proof.
  intros Z. destruct data as [ | b0 data]; [ now exists x00, 0%nat | ].
  set (d := b0 :: data) in *. assert (N : d <> []) by discriminate.
  rewrite get_entropy_terms in Z by exact N.
  pose proof (Byte.to_nat_bounded b0) as B0.
  assert (T : term d (Byte.to_nat b0) = 0).
  { apply (rsum_nonneg_zero (term d) (seq 0 256)).
    - intros x _. now apply term_nonneg.
    - exact Z.
    - apply in_seq. lia. }
  assert (C : (0 < count d (Byte.to_nat b0))%nat).
  { subst d. rewrite count_cons, Nat.eqb_refl. lia. }
  pose proof (term_zero_full_bin d _ N C T) as F.
  exists b0, (List.length d). apply map_to_nat_repeat.
  rewrite <- (length_map Byte.to_nat d).
  apply (count_occ_unique Nat.eq_dec). rewrite length_map. exact F.
Qed.

End SupportFacts.

Section RangeFacts.

Local Open Scope R_scope.

(** ** Ranges of the averages *)

Lemma entropy_range_all (c : list byte) : 0 <= get_entropy c <= 8.
Proof.
  destruct c as [ | b c]; [ cbn; lra | ]. apply entropy_range. discriminate.
Qed.

Lemma rsum_range (xs : list R) :
  (forall x, In x xs -> 0 <= x <= 8) ->
  0 <= rsum xs <= 8 * INR (List.length xs).
Proof.
  induction xs as [ | x xs IH]; intros H.
  - cbn. lra.
  - cbn [fold_right List.length]. rewrite S_INR.
    pose proof (H x (or_introl eq_refl)).
    assert (0 <= rsum xs <= 8 * INR (List.length xs))
      by (apply IH; intros z Hz; apply H; now right).
    lra.
Qed.

Lemma mean_range (xs : list R) :
  xs <> [] -> (forall x, In x xs -> 0 <= x <= 8) ->
  0 <= sum xs / INR (List.length xs) <= 8.
Proof.
  intros N H. rewrite sum_rsum.
  pose proof (rsum_range xs H) as [Lo Hi].
  assert (L : 0 < INR (List.length xs)).
  { apply lt_0_INR. destruct xs; [ contradiction | cbn; lia ]. }
  split.
  - apply Rmult_le_pos; [ exact Lo | left; now apply Rinv_0_lt_compat ].
  - apply Rmult_le_reg_r with (r := INR (List.length xs)); [ exact L | ].
    unfold Rdiv. rewrite Rmult_assoc, Rinv_l by lra. lra.
Qed.

Lemma entropies_in_range (f : list byte -> R) (cs : list (list byte)) :
  (forall c, f c = get_entropy c) ->
  forall x, In x (map f cs) -> 0 <= x <= 8.
Proof.
  intros E x Hx. apply in_map_iff in Hx. destruct Hx as (c & <- & _).
  rewrite E. apply entropy_range_all.
Qed.

Lemma avg_entropy_real_range (cs : list (list byte)) :
  cs <> [] -> 0 <= avg_entropy_real cs <= 8.
Proof.
  intros N. unfold avg_entropy_real. apply mean_range.
  - destruct cs; [ contradiction | discriminate ].
  - now apply entropies_in_range.
Qed.

Lemma avg_entropy_silesia_range (cs : list (list byte)) :
  0 <= avg_entropy_silesia cs <= 8.
Proof.
  unfold avg_entropy_silesia.
  destruct (map calculate_entropy (filter nonempty cs)) as [ | e es] eqn:E; [ lra | ].
  rewrite <- E. apply mean_range.
  - rewrite E. discriminate.
  - apply entropies_in_range. apply calculate_entropy_eq.
Qed.

(** ** The size feature *)

Lemma ln_10_pos : 0 < ln 10.
Proof. rewrite <- ln_1. apply ln_increasing; lra. Qed.

Lemma log10_increasing (x y : R) : 0 < x -> x < y -> log10 x < log10 y.
Proof.
  intros Hx Hxy. unfold log10, Rdiv.
  apply Rmult_lt_compat_r; [ apply Rinv_0_lt_compat, ln_10_pos | ].
  now apply ln_increasing.
Qed.

Lemma size_log_increasing (n m : Z) :
  (0 <= n < m)%Z -> log10 (IZR (n + 1)) < log10 (IZR (m + 1)).
Proof.
  intros H. apply log10_increasing.
  - apply IZR_lt. lia.
  - apply IZR_lt. lia.
Qed.

Lemma size_log_nonneg (n : Z) : (0 <= n)%Z -> 0 <= log10 (IZR (n + 1)).
Proof.
  intros H. destruct (Z.eq_dec n 0) as [-> | N].
  - change (IZR (0 + 1)) with 1. rewrite log10_1. lra.
  - left. rewrite <- log10_1. change 1 with (IZR (0 + 1)).
    apply size_log_increasing. lia.
Qed.

End RangeFacts.

Section PathFacts.

Local Open Scope string_scope.
Local Open Scope list_scope.

(** ** Appending, splitting and suffixes *)

Lemma has_char_app (sep : code_point) (a b : str) :
  has_char sep (a ++ b) = has_char sep a || has_char sep b.
Proof.
  induction a as [ | c a IH]; [ reflexivity | ].
  cbn [app has_char]. destruct (N.eqb c sep); [ reflexivity | exact IH ].
Qed.

(** Splitting at a separator that stands between two parts. *)
Lemma split_app_sep (sep : code_point) (a b : str) :
  split sep (a ++ sep :: b) = split sep a ++ split sep b.
Proof.
  induction a as [ | c a IH].
  - cbn [app split]. rewrite N.eqb_refl. reflexivity.
  - cbn [app split]. rewrite IH.
    destruct (N.eqb c sep); [ reflexivity | ].
    pose proof (split_not_nil sep a) as N.
    destruct (split sep a); [ contradiction | reflexivity ].
Qed.

Lemma last_item_app (xs ys : list str) :
  ys <> [] -> last_item (xs ++ ys) = last_item ys.
Proof.
  intros N. unfold last_item. induction xs as [ | x xs IH]; [ reflexivity | ].
  cbn [app]. destruct (xs ++ ys) eqn:E.
  - apply app_eq_nil in E. destruct E; contradiction.
  - exact IH.
Qed.

(** The last component after a separator. *)
Lemma last_component (sep : code_point) (a b : str) :
  has_char sep b = false ->
  last_item (split sep (a ++ sep :: b)) = b.
Proof.
  intros H. rewrite split_app_sep, last_item_app by apply split_not_nil.
  now rewrite split_no_sep.
Qed.

Lemma endswith_app (a suffix : str) : endswith (a ++ suffix) suffix = true.
Proof.
  unfold endswith. rewrite List.length_app.
  destruct (Nat.leb_spec (List.length suffix) (List.length a + List.length suffix));
    [ | lia ].
  replace (List.length a + List.length suffix - List.length suffix)%nat
    with (List.length a + 0)%nat by lia.
  rewrite skipn_app, Nat.add_0_r, skipn_all, Nat.sub_diag. apply str_eqb_refl.
Qed.

Lemma endswith_inv (s suffix : str) :
  endswith s suffix = true -> exists a, s = a ++ suffix.
Proof.
  unfold endswith. intros H.
  destruct (Nat.leb_spec (List.length suffix) (List.length s)) as [L | L];
    [ | discriminate ].
  apply str_eqb_eq in H.
  exists (firstn (List.length s - List.length suffix) s).
  rewrite <- H at 2. symmetry. apply firstn_skipn.
Qed.

(** ** Joining and taking the base name *)

Lemma path_join_relative (dir name : str) :
  has_char "/" name = false ->
  path_join dir name =
  if str_eqb dir "" || endswith dir "/" then dir ++ name else dir ++ "/" ++ name.
Proof.
  intros H. unfold path_join.
  destruct name as [ | c name]; [ reflexivity | ].
  cbn [has_char startswith] in *.
  destruct (N.eqb c (ord "/")); [ discriminate | reflexivity ].
Qed.

Lemma basename_path_join (dir name : str) :
  has_char "/" name = false -> basename (path_join dir name) = name.
Proof.
  intros H. rewrite path_join_relative by exact H. unfold basename.
  destruct (str_eqb dir "") eqn:D.
  - apply str_eqb_eq in D. subst dir. cbn [orb app literal list_ascii_of_string map].
    now rewrite split_no_sep.
  - cbn [orb]. change (literal "/" ++ name) with (ord "/" :: name).
    destruct (endswith dir "/") eqn:E.
    + apply endswith_inv in E. destruct E as (a & ->).
      rewrite <- app_assoc. now apply (last_component (ord "/") a name).
    + now apply (last_component (ord "/") dir name).
Qed.

(** The hint of a synthetic file name. *)
Lemma synthetic_name_is_media (U : unicode) (dir name : str) :
  has_char "/" name = false ->
  hint_silesia U (path_join dir (name ++ ".zst")) = MEDIA.
Proof.
  intros H. apply hint_silesia_media. left.
  rewrite basename_path_join by (rewrite has_char_app, H; reflexivity).
  destruct (lower_ascii_suffix U name ".zst" eq_refl) as (p & ->).
  apply endswith_app.
Qed.

End PathFacts.

Section StepFacts.

Local Open Scope Z_scope.

Variable P : platform.
Variable U : unicode.

(** ** One step of a scan *)

Lemma py_index_label (l : Z) :
  l = ALGO_A \/ l = ALGO_B \/ l = NO_COMPRESSION ->
  exists name, py_index ALGO_NAMES l = Some name.
Proof.
  intros [-> | [-> | ->]]; eexists; reflexivity.
Qed.

(** A race appends its calls to the log and its outcome does not depend
    on the log. *)
Lemma get_best_algo_log (cs : codecs) (data : list byte) (log : list call) :
  get_best_algo cs data log =
  (fst (run (get_best_algo cs data)), log ++ race_calls BROTLI_DEFAULT_QUALITY data).
Proof.
  destruct data as [ | b data].
  - unfold run. rewrite !get_best_algo_empty. cbn. now rewrite app_nil_r.
  - unfold run. rewrite !get_best_algo_closed by discriminate. reflexivity.
Qed.

Lemma get_best_label_log (cs : codecs) (data : list byte) (log : list call) :
  get_best_label cs data log =
  (fst (run (get_best_label cs data)), log ++ race_calls 4 data).
Proof.
  destruct data as [ | b data].
  - unfold run. rewrite !get_best_label_empty. cbn. now rewrite app_nil_r.
  - unfold run. rewrite !get_best_label_closed by discriminate. reflexivity.
Qed.

(** The outcome of a race: a label, unless Zstd fails on a non-empty
    file. *)
Lemma race_outcome_algo (cs : codecs) (data : list byte) :
  (data <> [] /\ zstd_compress cs 3 data = None /\
   fst (run (get_best_algo cs data)) = Raised ZstdError) \/
  ((data = [] \/ zstd_compress cs 3 data <> None) /\
   exists l, fst (run (get_best_algo cs data)) = Ok l /\
             (l = ALGO_A \/ l = ALGO_B \/ l = NO_COMPRESSION)).
Proof.
  destruct data as [ | b data].
  - right. split; [ now left | ]. exists NO_COMPRESSION. split; [ reflexivity | tauto ].
  - unfold run. rewrite get_best_algo_closed by discriminate. cbn [fst].
    destruct (zstd_compress cs 3 (b :: data)) as [out | ] eqn:E.
    + right. split; [ right; discriminate | ]. eexists. split; [ reflexivity | ].
      apply decide_range.
    + left. repeat split. discriminate.
Qed.

Lemma race_outcome_label (cs : codecs) (data : list byte) :
  (data <> [] /\ zstd_compress cs 3 data = None /\
   fst (run (get_best_label cs data)) = Raised ZstdError) \/
  ((data = [] \/ zstd_compress cs 3 data <> None) /\
   exists l, fst (run (get_best_label cs data)) = Ok l /\
             (l = ALGO_A \/ l = ALGO_B \/ l = NO_COMPRESSION)).
Proof.
  destruct data as [ | b data].
  - right. split; [ now left | ]. exists NO_COMPRESSION. split; [ reflexivity | tauto ].
  - unfold run. rewrite get_best_label_closed by discriminate. cbn [fst].
    destruct (zstd_compress cs 3 (b :: data)) as [out | ] eqn:E.
    + right. split; [ right; discriminate | ]. eexists. split; [ reflexivity | ].
      apply decide_range.
    + left. repeat split. discriminate.
Qed.

Lemma features_real_some (filename : str) (data : list byte) :
  exists row, features_real U filename data = Some row.
Proof.
  destruct (features_real_layout U filename data) as (cs & _ & E). eauto.
Qed.

Lemma extract_features_some (path : str) (data : list byte) :
  exists row, extract_features U path data = Some row.
Proof.
  destruct (extract_features_layout U path data) as (cs & _ & E). eauto.
Qed.

(** The three outcomes of a step of the first program on a readable
    regular file. *)
Lemma scan_step_real_file (cs : codecs) (st : scan_state) (name : str)
    (data : list byte) :
  (data <> [] /\ zstd_compress cs 3 data = None /\
   scan_step_real P U cs st (name, RegularFile true data) = inl (CodecError ZstdError)) \/
  ((data = [] \/ zstd_compress cs 3 data <> None) /\ print_ok P name = false /\
   scan_step_real P U cs st (name, RegularFile true data) = inl PrintError) \/
  ((data = [] \/ zstd_compress cs 3 data <> None) /\ print_ok P name = true /\
   exists row l winner,
     features_real U name data = Some row /\
     fst (run (get_best_algo cs data)) = Ok l /\
     py_index ALGO_NAMES l = Some winner /\
     scan_step_real P U cs st (name, RegularFile true data) =
     inr {| features := features st ++ [row]; labels := labels st ++ [l];
            winners := winners st ++ [winner];
            calls := calls st ++ race_calls BROTLI_DEFAULT_QUALITY data |}).
Proof.
  destruct (features_real_some name data) as (row & F).
  unfold scan_step_real. cbn [fst snd isfile negb open_rb].
  rewrite F, get_best_algo_log.
  destruct (race_outcome_algo cs data) as [(N & Z & E) | (G & l & L & R)].
  - left. rewrite E. repeat split; assumption.
  - right. rewrite L. destruct (py_index_label l R) as (winner & W). rewrite W.
    destruct (print_ok P name) eqn:Pr.
    + right. repeat split; try assumption. exists row, l, winner. repeat split; assumption.
    + left. repeat split; assumption.
Qed.

(** The same for a step of the second program, in either loop. *)
Lemma scan_step_silesia_file (cs : codecs) (dir : str) (skip : bool) (st : scan_state)
    (name : str) (data : list byte) :
  (data <> [] /\ zstd_compress cs 3 data = None /\
   scan_step_silesia P U cs dir skip st (name, RegularFile true data) =
   inl (CodecError ZstdError)) \/
  ((data = [] \/ zstd_compress cs 3 data <> None) /\
   print_ok P (firstn 10 name) = false /\
   scan_step_silesia P U cs dir skip st (name, RegularFile true data) = inl PrintError) \/
  ((data = [] \/ zstd_compress cs 3 data <> None) /\
   print_ok P (firstn 10 name) = true /\
   exists row l winner,
     extract_features U (path_join dir name) data = Some row /\
     fst (run (get_best_label cs data)) = Ok l /\
     py_index ALGO_NAMES l = Some winner /\
     scan_step_silesia P U cs dir skip st (name, RegularFile true data) =
     inr {| features := features st ++ [row]; labels := labels st ++ [l];
            winners := winners st ++ [winner];
            calls := calls st ++ race_calls 4 data |}).
Proof.
  destruct (extract_features_some (path_join dir name) data) as (row & F).
  unfold scan_step_silesia. cbn [fst snd isdir open_rb]. rewrite andb_false_r.
  rewrite F, get_best_label_log.
  destruct (race_outcome_label cs data) as [(N & Z & E) | (G & l & L & R)].
  - left. rewrite E. repeat split; assumption.
  - right. rewrite L. destruct (py_index_label l R) as (winner & W). rewrite W.
    destruct (print_ok P (firstn 10 name)) eqn:Pr.
    + right. repeat split; try assumption. exists row, l, winner. repeat split; assumption.
    + left. repeat split; assumption.
Qed.

End StepFacts.

Section LoopFacts.

Local Open Scope Z_scope.

Variable P : platform.
Variable U : unicode.

(** ** The scanning loops *)

Lemma regular_files_cons_file (name : str) (r : bool) (data : list byte) (l : listing) :
  regular_files ((name, RegularFile r data) :: l) = (name, data) :: regular_files l.
Proof. reflexivity. Qed.

Lemma regular_files_cons_dir (name : str) (l : listing) :
  regular_files ((name, Directory) :: l) = regular_files l.
Proof. reflexivity. Qed.

Lemma regular_files_cons_other (name : str) (l : listing) :
  regular_files ((name, Other) :: l) = regular_files l.
Proof. reflexivity. Qed.

(** Where every entry opens, the regular files are all the entries. *)
Lemma regular_files_all (l : listing) :
  (forall e, In e l -> opens (snd e) = true) ->
  List.length (regular_files l) = List.length l.
Proof.
  induction l as [ | [name [r data | | ]] l IH]; intros H; [ reflexivity | | | ].
  - rewrite regular_files_cons_file. cbn [List.length]. f_equal.
    apply IH. intros e I. apply H. now right.
  - specialize (H (name, Directory) (or_introl eq_refl)). discriminate H.
  - specialize (H (name, Other) (or_introl eq_refl)). discriminate H.
Qed.

Lemma scan_loop_real (cs : codecs) (l : listing) (st0 : scan_state) :
  (forall e, In e l -> unreadable_file (snd e) = false) ->
  (forall f, In f (regular_files l) ->
             (snd f = [] \/ zstd_compress cs 3 (snd f) <> None) /\
             print_ok P (fst f) = true) ->
  exists rows ls ws,
    for_each (scan_step_real P U cs) l st0 =
      inr {| features := features st0 ++ rows; labels := labels st0 ++ ls;
             winners := winners st0 ++ ws;
             calls := calls st0 ++
                      flat_map (fun f => race_calls BROTLI_DEFAULT_QUALITY (snd f))
                        (regular_files l) |} /\
    Forall2 (fun f row => features_real U (fst f) (snd f) = Some row)
      (regular_files l) rows /\
    Forall2 (fun f lab => fst (run (get_best_algo cs (snd f))) = Ok lab)
      (regular_files l) ls /\
    Forall2 (fun lab w => py_index ALGO_NAMES lab = Some w) ls ws.
Proof.
  revert st0. induction l as [ | [name [r data | | ]] l IH]; intros st0 R H.
  - exists [], [], []. cbn [for_each regular_files flat_map]. rewrite !app_nil_r.
    destruct st0; repeat split; constructor.
  - rewrite regular_files_cons_file in *.
    assert (r = true) as ->.
    { specialize (R (name, RegularFile r data) (or_introl eq_refl)).
      destruct r; [ reflexivity | discriminate R ]. }
    destruct (H (name, data) (or_introl eq_refl)) as [Hz Hp]. cbn [fst snd] in Hz, Hp.
    destruct (scan_step_real_file P U cs st0 name data)
      as [(N & Z & _) | [(_ & Pr & _) | (_ & _ & row & lab & w & F & L & W & E)]].
    { destruct Hz; contradiction. }
    { congruence. }
    cbn [for_each]. rewrite E.
    destruct (IH {| features := features st0 ++ [row]; labels := labels st0 ++ [lab];
                    winners := winners st0 ++ [w];
                    calls := calls st0 ++ race_calls BROTLI_DEFAULT_QUALITY data |})
      as (rows & ls & ws & Q & A & B & C).
    { intros e I. apply R. now right. }
    { intros f Hf. apply H. now right. }
    exists (row :: rows), (lab :: ls), (w :: ws).
    rewrite Q. cbn [features labels winners calls flat_map snd].
    rewrite <- !app_assoc. repeat split; try (constructor; assumption).
  - rewrite regular_files_cons_dir in *. cbn [for_each].
    change (scan_step_real P U cs st0 (name, Directory)) with (@inr scan_error _ st0).
    apply IH; [ intros e I; apply R; now right | exact H ].
  - rewrite regular_files_cons_other in *. cbn [for_each].
    change (scan_step_real P U cs st0 (name, Other)) with (@inr scan_error _ st0).
    apply IH; [ intros e I; apply R; now right | exact H ].
Qed.

Lemma scan_loop_real_failure (cs : codecs) (l : listing) (st0 : scan_state)
    (e : scan_error) :
  for_each (scan_step_real P U cs) l st0 = inl e ->
  (e = FileError /\ exists name data, In (name, RegularFile false data) l) \/
  (e = CodecError ZstdError /\
   exists f, In f (regular_files l) /\ snd f <> [] /\ zstd_compress cs 3 (snd f) = None) \/
  (e = PrintError /\ exists f, In f (regular_files l) /\ print_ok P (fst f) = false).
Proof.
  revert st0. induction l as [ | [name [r data | | ]] l IH]; intros st0 H.
  - discriminate H.
  - rewrite regular_files_cons_file. cbn [for_each] in H.
    assert (Later : forall st1, for_each (scan_step_real P U cs) l st1 = inl e ->
      (e = FileError /\ exists name0 data0,
          In (name0, RegularFile false data0) ((name, RegularFile r data) :: l)) \/
      (e = CodecError ZstdError /\
       exists f, In f ((name, data) :: regular_files l) /\ snd f <> [] /\
                 zstd_compress cs 3 (snd f) = None) \/
      (e = PrintError /\ exists f, In f ((name, data) :: regular_files l) /\
                                   print_ok P (fst f) = false)).
    { intros st1 H1.
      destruct (IH st1 H1)
        as [(-> & n & d & I) | [(-> & f & I & Q) | (-> & f & I & Q)]].
      - left. split; [ reflexivity | ]. exists n, d. now right.
      - right. left. split; [ reflexivity | ]. exists f. split; [ now right | exact Q ].
      - right. right. split; [ reflexivity | ]. exists f. split; [ now right | exact Q ]. }
    destruct r.
    + destruct (scan_step_real_file P U cs st0 name data)
        as [(N & Z & E) | [(_ & Pr & E) | (_ & _ & row & lab & w & _ & _ & _ & E)]];
        rewrite E in H.
      * injection H as <-. right. left. split; [ reflexivity | ].
        exists (name, data). repeat split; try assumption. now left.
      * injection H as <-. right. right. split; [ reflexivity | ].
        exists (name, data). split; [ now left | exact Pr ].
      * exact (Later _ H).
    + cbn in H. injection H as <-. left. split; [ reflexivity | ].
      exists name, data. now left.
  - rewrite regular_files_cons_dir. cbn [for_each] in H.
    change (scan_step_real P U cs st0 (name, Directory)) with (@inr scan_error _ st0) in H.
    destruct (IH st0 H) as [(-> & n & d & I) | [Q | Q]]; [ | now right; left | now right; right ].
    left. split; [ reflexivity | ]. exists n, d. now right.
  - rewrite regular_files_cons_other. cbn [for_each] in H.
    change (scan_step_real P U cs st0 (name, Other)) with (@inr scan_error _ st0) in H.
    destruct (IH st0 H) as [(-> & n & d & I) | [Q | Q]]; [ | now right; left | now right; right ].
    left. split; [ reflexivity | ]. exists n, d. now right.
Qed.

Lemma scan_loop_silesia (cs : codecs) (dir : str) (skip : bool) (l : listing)
    (st0 : scan_state) :
  (forall e, In e l -> (skip && isdir (snd e)) = false -> opens (snd e) = true) ->
  (forall f, In f (regular_files l) ->
             (snd f = [] \/ zstd_compress cs 3 (snd f) <> None) /\
             print_ok P (firstn 10 (fst f)) = true) ->
  exists rows ls ws,
    for_each (scan_step_silesia P U cs dir skip) l st0 =
      inr {| features := features st0 ++ rows; labels := labels st0 ++ ls;
             winners := winners st0 ++ ws;
             calls := calls st0 ++
                      flat_map (fun f => race_calls 4 (snd f)) (regular_files l) |} /\
    Forall2 (fun f row => extract_features U (path_join dir (fst f)) (snd f) = Some row)
      (regular_files l) rows /\
    Forall2 (fun f lab => fst (run (get_best_label cs (snd f))) = Ok lab)
      (regular_files l) ls /\
    Forall2 (fun lab w => py_index ALGO_NAMES lab = Some w) ls ws.
Proof.
  revert st0. induction l as [ | [name [r data | | ]] l IH]; intros st0 R H.
  - exists [], [], []. cbn [for_each regular_files flat_map]. rewrite !app_nil_r.
    destruct st0; repeat split; constructor.
  - rewrite regular_files_cons_file in *.
    assert (r = true) as ->.
    { specialize (R (name, RegularFile r data) (or_introl eq_refl)).
      cbn [snd isdir] in R. rewrite andb_false_r in R. specialize (R eq_refl).
      destruct r; [ reflexivity | discriminate R ]. }
    destruct (H (name, data) (or_introl eq_refl)) as [Hz Hp]. cbn [fst snd] in Hz, Hp.
    destruct (scan_step_silesia_file P U cs dir skip st0 name data)
      as [(N & Z & _) | [(_ & Pr & _) | (_ & _ & row & lab & w & F & L & W & E)]].
    { destruct Hz; contradiction. }
    { congruence. }
    cbn [for_each]. rewrite E.
    destruct (IH {| features := features st0 ++ [row]; labels := labels st0 ++ [lab];
                    winners := winners st0 ++ [w];
                    calls := calls st0 ++ race_calls 4 data |})
      as (rows & ls & ws & Q & A & B & C).
    { intros e I. apply R. now right. }
    { intros f Hf. apply H. now right. }
    exists (row :: rows), (lab :: ls), (w :: ws).
    rewrite Q. cbn [features labels winners calls flat_map snd fst].
    rewrite <- !app_assoc. repeat split; try (constructor; assumption).
  - rewrite regular_files_cons_dir in *.
    pose proof (R (name, Directory) (or_introl eq_refl)) as D. cbn [snd isdir] in D.
    destruct skip.
    + cbn [for_each].
      change (scan_step_silesia P U cs dir true st0 (name, Directory))
        with (@inr scan_error _ st0).
      apply IH; [ intros e I; apply R; now right | exact H ].
    + specialize (D eq_refl). discriminate D.
  - pose proof (R (name, Other) (or_introl eq_refl)) as D. cbn [snd isdir] in D.
    rewrite andb_false_r in D. specialize (D eq_refl). discriminate D.
Qed.

Lemma generate_loop (cs : codecs) (l : listing)
    (writes0 : list (str * list byte)) (calls0 : list call) :
  (forall e, In e l -> isdir (snd e) = false -> opens (snd e) = true) ->
  (forall f, In f (regular_files l) ->
             zstd_compress cs 3 (snd f) <> None /\
             create_ok P (fst f ++ literal ".zst") = true) ->
  exists ws,
    for_each (generate_step P cs) l (writes0, calls0) =
      inr (writes0 ++ ws,
           calls0 ++ repeat (CallZstd 3) (List.length (regular_files l))) /\
    Forall2 (fun f w => fst w = fst f ++ literal ".zst" /\
                        zstd_compress cs 3 (snd f) = Some (snd w))
      (regular_files l) ws.
Proof.
  revert writes0 calls0. induction l as [ | [name [r data | | ]] l IH]; intros w0 c0 R H.
  - exists []. cbn. rewrite !app_nil_r. split; constructor.
  - rewrite regular_files_cons_file in *.
    assert (r = true) as ->.
    { specialize (R (name, RegularFile r data) (or_introl eq_refl) eq_refl).
      destruct r; [ reflexivity | discriminate R ]. }
    destruct (H (name, data) (or_introl eq_refl)) as [Hz Hc]. cbn [fst snd] in Hz, Hc.
    destruct (zstd_compress cs 3 data) as [out | ] eqn:Z; [ | contradiction ].
    cbn [for_each]. unfold generate_step at 1. cbn [fst snd isdir open_rb].
    unfold zstd. rewrite Z, Hc.
    destruct (IH (w0 ++ [(name ++ literal ".zst", out)]) (c0 ++ [CallZstd 3]))
      as (ws & Q & A).
    { intros e I. apply R. now right. }
    { intros f Hf. apply H. now right. }
    exists ((name ++ literal ".zst", out) :: ws). rewrite Q.
    cbn [List.length repeat]. rewrite <- !app_assoc. split; [ reflexivity | ].
    constructor; [ split; [ reflexivity | exact Z ] | exact A ].
  - rewrite regular_files_cons_dir in *. cbn [for_each].
    change (generate_step P cs (w0, c0) (name, Directory))
      with (@inr scan_error _ (w0, c0)).
    apply IH; [ intros e I; apply R; now right | exact H ].
  - specialize (R (name, Other) (or_introl eq_refl) eq_refl). discriminate R.
Qed.

Lemma generate_loop_failure (cs : codecs) (l : listing)
    (st0 : list (str * list byte) * list call) (e : scan_error) :
  for_each (generate_step P cs) l st0 = inl e ->
  (e = FileError /\
   exists x, In x l /\ isdir (snd x) = false /\ opens (snd x) = false) \/
  (e = CodecError ZstdError /\
   exists f, In f (regular_files l) /\ zstd_compress cs 3 (snd f) = None) \/
  (e = FileError /\
   exists f, In f (regular_files l) /\ create_ok P (fst f ++ literal ".zst") = false).
Proof.
  revert st0. induction l as [ | [name en] l IH]; intros st0 H; [ discriminate H | ].
  assert (Later : forall st1, for_each (generate_step P cs) l st1 = inl e ->
    (e = FileError /\
     exists x, In x ((name, en) :: l) /\ isdir (snd x) = false /\ opens (snd x) = false) \/
    (e = CodecError ZstdError /\
     exists f, In f (regular_files ((name, en) :: l)) /\
               zstd_compress cs 3 (snd f) = None) \/
    (e = FileError /\
     exists f, In f (regular_files ((name, en) :: l)) /\
               create_ok P (fst f ++ literal ".zst") = false)).
  { intros st1 H1.
    assert (S : forall f, In f (regular_files l) -> In f (regular_files ((name, en) :: l))).
    { intros f I. destruct en; [ rewrite regular_files_cons_file; now right | | ];
        assumption. }
    destruct (IH st1 H1) as [(-> & x & I & Q) | [(-> & f & I & Q) | (-> & f & I & Q)]].
    - left. split; [ reflexivity | ]. exists x. split; [ now right | exact Q ].
    - right. left. split; [ reflexivity | ]. exists f. split; [ now apply S | exact Q ].
    - right. right. split; [ reflexivity | ]. exists f. split; [ now apply S | exact Q ]. }
  cbn [for_each] in H. destruct en as [[ | ] data | | ].
  - unfold generate_step at 1 in H. cbn [fst snd isdir open_rb] in H.
    unfold zstd in H. destruct (zstd_compress cs 3 data) as [out | ] eqn:Z.
    + destruct (create_ok P (name ++ literal ".zst")) eqn:C.
      * exact (Later _ H).
      * injection H as <-. right. right. split; [ reflexivity | ].
        exists (name, data). split; [ now left | exact C ].
    + injection H as <-. right. left. split; [ reflexivity | ].
      exists (name, data). split; [ now left | exact Z ].
  - cbn in H. injection H as <-. left. split; [ reflexivity | ].
    exists (name, RegularFile false data). repeat split. now left.
  - change (generate_step P cs st0 (name, Directory)) with (@inr scan_error _ st0) in H.
    exact (Later _ H).
  - cbn in H. injection H as <-. left. split; [ reflexivity | ].
    exists (name, Other). repeat split. now left.
Qed.

End LoopFacts.

Section SamplerProperties.

Local Open Scope Z_scope.

(** X1. Sampling never raises and reads three slices of the file: the
    head at offset 0, the middle at offset [S / 2] and the tail at offset
    [max(0, S - 16384)], of lengths [min(S, 16384)],
    [min(S - S / 2, 16384)] and [min(S, 16384)]; the tail ends at the end
    of the file.  At most [3 * 16384] bytes are read whatever the size. *)
Theorem sampler_windows (data : list byte) :
  exists head mid tail,
    chunks data = Some [head; mid; tail] /\
    len head = Z.min (len data) CHUNK_SIZE /\
    len mid = Z.min (len data - len data / 2) CHUNK_SIZE /\
    len tail = Z.min (len data) CHUNK_SIZE /\
    (exists post, data = head ++ post) /\
    (exists pre post, data = pre ++ mid ++ post /\ len pre = len data / 2) /\
    (exists pre, data = pre ++ tail /\ len pre = Z.max 0 (len data - CHUNK_SIZE)) /\
    len head + len mid + len tail <= 3 * CHUNK_SIZE.
Proof.
  rewrite chunks_windows.
  assert (H2 : 0 <= len data / 2 <= len data).
  { unfold len. split; [ apply Z.div_pos; lia | ].
    apply Z.div_le_upper_bound; lia. }
  assert (K1 : (Z.to_nat (len data / 2) <= List.length data)%nat)
    by (unfold len in *; lia).
  assert (K2 : Z.to_nat (len data - CHUNK_SIZE)
               = (List.length data - Z.to_nat CHUNK_SIZE)%nat)
    by (unfold len, CHUNK_SIZE; lia).
  rewrite K2.
  assert (ZW : Z.of_nat (Z.to_nat CHUNK_SIZE) = CHUNK_SIZE) by (unfold CHUNK_SIZE; lia).
  generalize dependent (Z.to_nat CHUNK_SIZE). intros W K2 ZW.
  destruct (windows_nat W (Z.to_nat (len data / 2)) data K1)
    as (L0 & L1 & L2 & (post0 & A0) & (pre1 & post1 & A1 & P1) & (pre2 & A2 & P2)).
  do 3 eexists. split; [ reflexivity | ].
  unfold len in *. rewrite L0, L1, L2.
  repeat split; try lia.
  - exists post0. exact A0.
  - exists pre1, post1. split; [ exact A1 | lia ].
  - exists pre2. split; [ exact A2 | lia ].
Qed.

(** X2. On a file of at most two windows (32768 bytes) the head and the
    tail together hold every byte of the file: the file is the head, cut
    where the tail begins, followed by the tail. *)
Theorem sampler_covers_files_up_to_two_windows (data : list byte) :
  len data <= 2 * CHUNK_SIZE ->
  exists head mid tail,
    chunks data = Some [head; mid; tail] /\
    data = firstn (Z.to_nat (len data - len tail)) head ++ tail.
Proof.
  intros H. rewrite chunks_windows. do 3 eexists. split; [ reflexivity | ].
  assert (K2 : Z.to_nat (len data - CHUNK_SIZE)
               = (List.length data - Z.to_nat CHUNK_SIZE)%nat)
    by (unfold len, CHUNK_SIZE; lia).
  rewrite K2.
  assert (HW : (List.length data <= 2 * Z.to_nat CHUNK_SIZE)%nat)
    by (unfold len, CHUNK_SIZE in *; lia).
  generalize dependent (Z.to_nat CHUNK_SIZE). intros W _ HW.
  pose proof (cover_nat W data HW) as C. cbn zeta in C.
  unfold len at 1 2. rewrite <- Nat2Z.inj_sub.
  - rewrite Nat2Z.id. exact C.
  - rewrite length_firstn, length_skipn. lia.
Qed.

Lemma sampler_covers_files_up_to_two_windows_witness :
  len [x61; x62; x63] <= 2 * CHUNK_SIZE /\
  exists head mid tail,
    chunks [x61; x62; x63] = Some [head; mid; tail] /\
    [x61; x62; x63] = firstn (Z.to_nat (len [x61; x62; x63] - len tail)) head ++ tail.
Proof.
  assert (H : len [x61; x62; x63] <= 2 * CHUNK_SIZE) by (vm_compute; discriminate).
  split; [ exact H | ].
  exact (sampler_covers_files_up_to_two_windows [x61; x62; x63] H).
Defined.

(** X3. A byte that lies after the head window and before the tail
    window, and outside the middle window, is never read: changing it
    changes neither the sampled chunks nor the feature row of either
    variant. *)
Theorem sampler_ignores_bytes_between_windows
    (U : unicode) (a b : list byte) (x y : byte) (name : str) :
  let S := len a + 1 + len b in
  CHUNK_SIZE <= len a ->
  len a < S / 2 \/ S / 2 + CHUNK_SIZE <= len a ->
  len a < S - CHUNK_SIZE ->
  chunks (a ++ x :: b) = chunks (a ++ y :: b) /\
  features_real U name (a ++ x :: b) = features_real U name (a ++ y :: b) /\
  extract_features U name (a ++ x :: b) = extract_features U name (a ++ y :: b).
Proof.
  intros S H1 H2 H3.
  pose proof (chunks_change_outside a b x y H1 H2 H3) as C.
  assert (L : len (a ++ x :: b) = len (a ++ y :: b))
    by (rewrite !len_app, !len_cons; reflexivity).
  unfold features_real, extract_features. rewrite C, L. repeat split.
Qed.

Lemma sampler_ignores_bytes_between_windows_witness :
  let a := repeat x00 (Z.to_nat 20000) in
  let b := repeat x00 (Z.to_nat 49999) in
  chunks (a ++ x00 :: b) = chunks (a ++ xff :: b) /\
  features_real unicode_fragment "sample.bin"%string (a ++ x00 :: b) = features_real unicode_fragment "sample.bin"%string (a ++ xff :: b).
Proof.
  intros a b.
  assert (La : len a = 20000) by (unfold len, a; rewrite repeat_length; lia).
  assert (Lb : len b = 49999) by (unfold len, b; rewrite repeat_length; lia).
  assert (H1 : CHUNK_SIZE <= len a) by (rewrite La; unfold CHUNK_SIZE; lia).
  assert (H2 : len a < (len a + 1 + len b) / 2
               \/ (len a + 1 + len b) / 2 + CHUNK_SIZE <= len a)
    by (left; rewrite La, Lb; reflexivity).
  assert (H3 : len a < len a + 1 + len b - CHUNK_SIZE)
    by (rewrite La, Lb; unfold CHUNK_SIZE; lia).
  destruct (sampler_ignores_bytes_between_windows unicode_fragment a b x00 xff
              "sample.bin"%string H1 H2 H3)
    as (C & F & _).
  split; [ exact C | exact F ].
Defined.

End SamplerProperties.

Section EntropyProperties.

Local Open Scope R_scope.

(** X4. The entropy of a chunk, as either program computes it, does not
    depend on the order of its bytes. *)
Theorem entropy_permutation_invariant (a b : list byte) :
  Permutation a b ->
  get_entropy a = get_entropy b /\ calculate_entropy a = calculate_entropy b.
Proof.
  intros P. change (calculate_entropy a) with (get_entropy a).
  change (calculate_entropy b) with (get_entropy b).
  split; now apply entropy_permutation.
Qed.

Lemma entropy_permutation_invariant_witness :
  Permutation [x61; x62; x62] [x62; x61; x62] /\
  get_entropy [x61; x62; x62] = get_entropy [x62; x61; x62].
Proof.
  assert (P : Permutation [x61; x62; x62] [x62; x61; x62]) by apply perm_swap.
  split; [ exact P | ].
  exact (proj1 (entropy_permutation_invariant _ _ P)).
Defined.

(** X5. The entropy of a chunk does not depend on its length as such:
    a chunk repeated [k >= 1] times has the entropy of the chunk. *)
Theorem entropy_repetition_invariant (data : list byte) (k : nat) :
  (0 < k)%nat ->
  get_entropy (List.concat (repeat data k)) = get_entropy data /\
  calculate_entropy (List.concat (repeat data k)) = calculate_entropy data.
Proof.
  intros K. change (calculate_entropy data) with (get_entropy data).
  change (calculate_entropy (List.concat (repeat data k)))
    with (get_entropy (List.concat (repeat data k))).
  split; now apply entropy_repeated.
Qed.

Lemma entropy_repetition_invariant_witness :
  (0 < 3)%nat /\
  get_entropy (List.concat (repeat [x61; x62] 3)) = get_entropy [x61; x62].
Proof.
  assert (H : (0 < 3)%nat) by lia.
  split; [ exact H | ].
  exact (proj1 (entropy_repetition_invariant [x61; x62] 3 H)).
Defined.

(** X6. The entropy is zero exactly on the chunks that hold one byte
    value only (the empty chunk included). *)
Theorem entropy_zero_iff_constant (data : list byte) :
  (get_entropy data = 0 <-> exists b n, data = repeat b n) /\
  (calculate_entropy data = 0 <-> exists b n, data = repeat b n).
Proof.
  change (calculate_entropy data) with (get_entropy data).
  assert (H : get_entropy data = 0 <-> exists b n, data = repeat b n).
  { split.
    - apply entropy_zero_constant.
    - intros (b & n & ->). destruct n as [ | n]; [ reflexivity | ].
      apply entropy_constant. lia. }
  split; exact H.
Qed.

Lemma entropy_zero_iff_constant_witness :
  get_entropy (repeat x41 4) = 0 /\
  (get_entropy [x41; x41] = 0 -> exists b n, [x41; x41] = repeat b n).
Proof.
  split.
  - apply (proj2 (proj1 (entropy_zero_iff_constant (repeat x41 4)))).
    exists x41, 4%nat. reflexivity.
  - exact (proj1 (proj1 (entropy_zero_iff_constant [x41; x41]))).
Defined.

End EntropyProperties.

Section FeatureProperties.

Local Open Scope R_scope.

(** X9. Every feature row of either variant has its average entropy in
    [0, 8], a non-negative size logarithm that is zero only for the empty
    file, and a hint among 0, 1, 2. *)
Theorem feature_ranges (U : unicode) (name : str) (data : list byte) :
  (exists avg size_log hint,
      features_real U name data = Some [avg; size_log; hint] /\
      0 <= avg <= 8 /\ 0 <= size_log /\ (size_log = 0 <-> data = []) /\
      (hint = 0 \/ hint = 1 \/ hint = 2)) /\
  (exists avg size_log hint,
      extract_features U name data = Some [avg; size_log; hint] /\
      0 <= avg <= 8 /\ 0 <= size_log /\ (size_log = 0 <-> data = []) /\
      (hint = 0 \/ hint = 1 \/ hint = 2)).
Proof.
  assert (SL : 0 <= log10 (IZR (len data + 1)) /\
               (log10 (IZR (len data + 1)) = 0 <-> data = [])).
  { split; [ apply size_log_nonneg, len_nonneg | ]. split.
    - intros Z. destruct data as [ | b data]; [ reflexivity | exfalso ].
      assert (0 < log10 (IZR (len (b :: data) + 1))).
      { rewrite <- log10_1. change 1 with (IZR (0 + 1)).
        apply size_log_increasing. rewrite len_cons. pose proof (len_nonneg data). lia. }
      lra.
    - intros ->. change (IZR (len [] + 1)) with 1. apply log10_1. }
  assert (HR : forall h : Z, (h = GENERIC \/ h = TEXT \/ h = MEDIA)%Z ->
                             IZR h = 0 \/ IZR h = 1 \/ IZR h = 2).
  { intros h [-> | [-> | ->]]; auto. }
  split.
  - destruct (features_real_layout U name data) as (cs & C & F).
    do 3 eexists. split; [ exact F | ].
    split; [ | split; [ apply SL | split; [ apply SL | apply HR, hint_real_range ] ] ].
    apply avg_entropy_real_range. exact (sampler_slices_nonempty data cs C).
  - destruct (extract_features_layout U name data) as (cs & C & F).
    do 3 eexists. split; [ exact F | ].
    split; [ apply avg_entropy_silesia_range | ].
    split; [ apply SL | split; [ apply SL | apply HR, hint_silesia_range ] ].
Qed.

End FeatureProperties.

Section LabelProperties.

Local Open Scope Z_scope.

(** X11. What each label guarantees, for sizes below [2^47]: Brotli is
    chosen only when it is strictly smaller than Zstd and saves at least
    5%; Zstd is chosen only when its size is at most 95/98 of the
    original; "none" is chosen only when both codecs leave more than 95%
    of the original.  In particular a tie never goes to Brotli. *)
Theorem label_guarantees (original_size brotli_size zstd_size : Z) :
  0 < original_size < 2 ^ 47 ->
  0 <= brotli_size < 2 ^ 47 ->
  0 <= zstd_size < 2 ^ 47 ->
  (decide original_size brotli_size zstd_size = ALGO_A ->
   brotli_size < zstd_size /\ 100 * brotli_size <= 95 * original_size) /\
  (decide original_size brotli_size zstd_size = ALGO_B ->
   98 * zstd_size <= 100 * brotli_size /\ 98 * zstd_size <= 95 * original_size) /\
  (decide original_size brotli_size zstd_size = NO_COMPRESSION ->
   95 * original_size < 100 * brotli_size /\ 95 * original_size < 100 * zstd_size) /\
  (zstd_size <= brotli_size ->
   decide original_size brotli_size zstd_size <> ALGO_A).
Proof.
  intros Ho Ha Hb.
  destruct (label_guarantees_aux _ _ _ Ho Ha Hb) as (A & B & C).
  repeat split; try (apply A || apply B || apply C); try assumption.
  intros L E. apply A in E. lia.
Qed.

Lemma label_guarantees_witness :
  0 < 1000 < 2 ^ 47 /\ 0 <= 850 < 2 ^ 47 /\ 0 <= 900 < 2 ^ 47 /\
  decide 1000 850 900 = ALGO_A /\
  850 < 900 /\ 100 * 850 <= 95 * 1000.
Proof.
  assert (Ho : 0 < 1000 < 2 ^ 47) by lia.
  assert (Ha : 0 <= 850 < 2 ^ 47) by lia.
  assert (Hb : 0 <= 900 < 2 ^ 47) by lia.
  assert (D : decide 1000 850 900 = ALGO_A) by (vm_compute; reflexivity).
  repeat (split; [ assumption | ]).
  exact (proj1 (label_guarantees 1000 850 900 Ho Ha Hb) D).
Defined.

(** X12. A Brotli that failed is never the winner: on a non-empty file
    below [2^47] bytes where Brotli raises and Zstd succeeds, both
    ground-truth functions return Zstd when Zstd saves at least 5% and
    "none" otherwise. *)
Theorem failed_brotli_is_never_chosen (cs : codecs) (data out : list byte) :
  data <> [] -> len data < 2 ^ 47 -> len out < 2 ^ 47 ->
  (forall quality, brotli_compress cs quality data = None) ->
  zstd_compress cs 3 data = Some out ->
  let label := if 95 * len data <? 100 * len out then NO_COMPRESSION else ALGO_B in
  fst (run (get_best_algo cs data)) = Ok label /\
  fst (run (get_best_label cs data)) = Ok label.
Proof.
  intros N Ld Lo B Z label.
  destruct (race_outcomes cs data N) as [RA RL].
  rewrite RA, RL, Z, !B. cbn [fst size_or_original].
  assert (Hd : 0 < len data).
  { destruct data; [ contradiction | rewrite len_cons; pose proof (len_nonneg data); lia ]. }
  pose proof (len_nonneg out) as Ho.
  assert (E : decide (len data) (len data) (len out) = label).
  { rewrite decide_exact by lia. subst label.
    unfold NO_COMPRESSION, ALGO_A, ALGO_B.
    destruct (Z.ltb_spec (95 * len data) (100 * Z.min (len data) (len out)));
      destruct (Z.ltb_spec (95 * len data) (100 * len out));
      destruct (Z.ltb_spec (100 * len data) (98 * len out)); try reflexivity; lia. }
  rewrite E. split; reflexivity.
Qed.

Lemma failed_brotli_is_never_chosen_witness :
  fst (run (get_best_algo brotli_failing_codecs [x61; x62; x63; x64])) = Ok ALGO_B /\
  fst (run (get_best_label brotli_failing_codecs [x61; x62; x63; x64])) = Ok ALGO_B.
Proof.
  apply (failed_brotli_is_never_chosen brotli_failing_codecs
           [x61; x62; x63; x64] [x61; x62]).
  - discriminate.
  - vm_compute. reflexivity.
  - vm_compute. reflexivity.
  - intros quality. reflexivity.
  - reflexivity.
Defined.

End LabelProperties.

Section HintProperties.

Local Open Scope string_scope.
Local Open Scope list_scope.

(** X13. The extension classifier looks at what follows the last dot
    only: a name [stem.ext] with a dot-free [ext] is classified as the
    bare name [ext] is, whatever the stem (dots included); and a name
    ending in a dot is [GENERIC]. *)
Theorem hint_real_last_component (U : unicode) (stem ext : str) :
  has_char "." ext = false ->
  hint_real U (stem ++ "." ++ ext) = hint_real U ext /\
  hint_real U (stem ++ ".") = GENERIC.
Proof.
  intros H.
  assert (G : forall e, has_char "." e = false ->
                        extension U (stem ++ ord "." :: e) = extension U e).
  { intros e He. unfold extension. rewrite last_component by exact He.
    now rewrite split_no_sep. }
  split.
  - unfold hint_real. change (stem ++ "." ++ ext) with (stem ++ ord "." :: ext).
    now rewrite G.
  - unfold hint_real. change (stem ++ ".") with (stem ++ ord "." :: []).
    now rewrite G.
Qed.

Lemma hint_real_last_component_witness :
  has_char "." "zip" = false /\
  hint_real unicode_fragment ("backup.2024.tar" ++ "." ++ "zip") =
  hint_real unicode_fragment "zip".
Proof.
  assert (H : has_char "." "zip" = false) by reflexivity.
  split; [ exact H | ].
  exact (proj1 (hint_real_last_component unicode_fragment "backup.2024.tar" "zip" H)).
Defined.

(** X14. The base-name classifier does not see the directory: for a
    name without a slash, the hint of [os.path.join(dir, name)] is the
    hint of [name]; and the hint of [os.path.join(dir, name + ".zst")] is
    [MEDIA], whatever the directory and the name. *)
Theorem hint_silesia_ignores_directory (U : unicode) (dir name : str) :
  has_char "/" name = false ->
  hint_silesia U (path_join dir name) = hint_silesia U name /\
  hint_silesia U (path_join dir (name ++ ".zst")) = MEDIA.
Proof.
  intros H. split.
  - unfold hint_silesia. rewrite basename_path_join by exact H.
    unfold basename. now rewrite split_no_sep.
  - now apply synthetic_name_is_media.
Qed.

Lemma hint_silesia_ignores_directory_witness :
  has_char "/" "Dickens" = false /\
  hint_silesia unicode_fragment (path_join "/data/x.zst/silesia" "Dickens") =
  hint_silesia unicode_fragment "Dickens" /\
  hint_silesia unicode_fragment
    (path_join "/data/silesia/synthetic_compressed" ("Dickens" ++ ".zst")) = MEDIA.
Proof.
  assert (H : has_char "/" "Dickens" = false) by reflexivity.
  split; [ exact H | ]. split.
  - exact (proj1 (hint_silesia_ignores_directory unicode_fragment
                    "/data/x.zst/silesia" "Dickens" H)).
  - exact (proj2 (hint_silesia_ignores_directory unicode_fragment
                    "/data/silesia/synthetic_compressed" "Dickens" H)).
Defined.

End HintProperties.

Section ScanProperties.

Local Open Scope Z_scope.

(** X15. The main loop of train_real_model.py completes whenever every
    regular file of the data set can be read, Zstd succeeds on every
    non-empty one and every file name can be printed; its lists are then
    aligned: entries that are not regular files are skipped, there is one
    feature row and one label per regular file, in listing order, the
    i-th row and the i-th label being those of the i-th file; every label
    indexes the name table; and the codecs were called twice per
    non-empty file, Brotli first. *)
Theorem scan_real_aligned (P : platform) (U : unicode) (cs : codecs)
    (dataset : listing) :
  (forall e, In e dataset -> unreadable_file (snd e) = false) ->
  (forall f, In f (regular_files dataset) ->
             (snd f = [] \/ zstd_compress cs 3 (snd f) <> None) /\
             print_ok P (fst f) = true) ->
  exists st,
    scan_real P U cs dataset = inr st /\
    Forall2 (fun f row => features_real U (fst f) (snd f) = Some row)
      (regular_files dataset) (features st) /\
    Forall2 (fun f lab => fst (run (get_best_algo cs (snd f))) = Ok lab)
      (regular_files dataset) (labels st) /\
    Forall2 (fun lab w => py_index ALGO_NAMES lab = Some w) (labels st) (winners st) /\
    List.length (features st) = List.length (regular_files dataset) /\
    List.length (labels st) = List.length (regular_files dataset) /\
    calls st = flat_map (fun f => race_calls BROTLI_DEFAULT_QUALITY (snd f))
                 (regular_files dataset).
Proof.
  intros R H. destruct (scan_loop_real P U cs dataset empty_scan R H)
    as (rows & ls & ws & E & A & B & C).
  eexists. split; [ exact E | ]. cbn [features labels winners calls empty_scan app].
  repeat split; try assumption.
  - symmetry. exact (Forall2_length A).
  - symmetry. exact (Forall2_length B).
Qed.

Lemma scan_real_aligned_witness :
  exists st,
    scan_real permissive unicode_fragment identity_codecs
      [(literal "notes.txt", RegularFile true [x61; x62]);
       (literal "sub", Directory); (literal "link", Other);
       (literal "empty.bin", RegularFile true [])] = inr st /\
    List.length (features st) = 2%nat /\ List.length (labels st) = 2%nat /\
    calls st = [CallBrotli 11; CallZstd 3].
Proof.
  destruct (scan_real_aligned permissive unicode_fragment identity_codecs
              [(literal "notes.txt", RegularFile true [x61; x62]);
               (literal "sub", Directory); (literal "link", Other);
               (literal "empty.bin", RegularFile true [])])
    as (st & E & _ & _ & _ & LF & LL & C).
  - intros e [<- | [<- | [<- | [<- | []]]]]; reflexivity.
  - intros f _. split; [ right; discriminate | reflexivity ].
  - exists st. repeat split; assumption.
Defined.

(** X16. The main loop of train_real_model.py can be ended early in
    three ways only: a regular file that cannot be read, an uncaught
    Zstd failure on a non-empty regular file, or a file name that cannot
    be printed.  It never ends on a Brotli failure or on an index out of
    range, and entries that are not regular files never end it. *)
Theorem scan_real_failure (P : platform) (U : unicode) (cs : codecs)
    (dataset : listing) (e : scan_error) :
  scan_real P U cs dataset = inl e ->
  (e = FileError /\ exists name data, In (name, RegularFile false data) dataset) \/
  (e = CodecError ZstdError /\
   exists f, In f (regular_files dataset) /\ snd f <> [] /\
             zstd_compress cs 3 (snd f) = None) \/
  (e = PrintError /\
   exists f, In f (regular_files dataset) /\ print_ok P (fst f) = false).
Proof. apply scan_loop_real_failure. Qed.

Lemma scan_real_failure_witness :
  scan_real permissive unicode_fragment zstd_failing_codecs
    [(literal "empty.bin", RegularFile true []);
     (literal "notes.txt", RegularFile true [x61])]
    = inl (CodecError ZstdError) /\
  exists f, In f (regular_files
                    [(literal "empty.bin", RegularFile true []);
                     (literal "notes.txt", RegularFile true [x61])]) /\
            snd f <> [] /\ zstd_compress zstd_failing_codecs 3 (snd f) = None.
Proof.
  assert (H : scan_real permissive unicode_fragment zstd_failing_codecs
                [(literal "empty.bin", RegularFile true []);
                 (literal "notes.txt", RegularFile true [x61])]
              = inl (CodecError ZstdError)) by reflexivity.
  split; [ exact H | ].
  destruct (scan_real_failure _ _ _ _ _ H) as [(E & _) | [(_ & Q) | (E & _)]];
    [ discriminate E | exact Q | discriminate E ].
Defined.

(** X17. The loop of [generate_compressed_samples] completes when every
    entry of the download directory that is not a directory is a
    readable regular file, Zstd succeeds on each of them and each output
    file can be written.  It then made one Zstd call per regular file,
    empty ones included, and wrote each output under the file's name
    followed by [.zst], in listing order; every name it wrote is
    classified [MEDIA] by the base-name classifier, whatever the
    directory. *)
Theorem synthetic_samples (P : platform) (U : unicode) (cs : codecs)
    (download_dir : listing) (dir : str) :
  (forall e, In e download_dir -> isdir (snd e) = false -> opens (snd e) = true) ->
  (forall f, In f (regular_files download_dir) ->
             has_char "/" (fst f) = false /\
             zstd_compress cs 3 (snd f) <> None /\
             create_ok P (fst f ++ literal ".zst") = true) ->
  exists writes,
    generate_compressed_samples P cs download_dir =
      inr (writes, repeat (CallZstd 3) (List.length (regular_files download_dir))) /\
    Forall2 (fun f w => fst w = fst f ++ literal ".zst" /\
                        zstd_compress cs 3 (snd f) = Some (snd w))
      (regular_files download_dir) writes /\
    Forall (fun w => hint_silesia U (path_join dir (fst w)) = MEDIA) writes.
Proof.
  intros R H.
  destruct (generate_loop P cs download_dir [] [] R) as (ws & E & A).
  { intros f Hf. split; now apply H. }
  exists ws. split; [ exact E | ]. split; [ exact A | ].
  assert (S : Forall (fun f => has_char "/" (fst f) = false) (regular_files download_dir)).
  { apply Forall_forall. intros f Hf. now apply H. }
  clear E H R. induction A as [ | f w fs ws' [N _] _ IH]; [ constructor | ].
  inversion S as [ | ? ? Sf Sfs]; subst.
  constructor; [ | now apply IH ].
  destruct w as [wn wd]. cbn [fst] in *. subst wn.
  now apply synthetic_name_is_media.
Qed.

Lemma synthetic_samples_witness :
  exists writes,
    generate_compressed_samples permissive identity_codecs
      [(literal "dickens", RegularFile true [x61; x62]);
       (literal "synthetic_compressed", Directory);
       (literal "empty", RegularFile true [])] =
      inr (writes, [CallZstd 3; CallZstd 3]) /\
    Forall (fun w => hint_silesia unicode_fragment
                       (path_join (literal "silesia/synthetic_compressed") (fst w))
                     = MEDIA)
      writes.
Proof.
  destruct (synthetic_samples permissive unicode_fragment identity_codecs
              [(literal "dickens", RegularFile true [x61; x62]);
               (literal "synthetic_compressed", Directory);
               (literal "empty", RegularFile true [])]
              (literal "silesia/synthetic_compressed")) as (ws & E & _ & M).
  - intros e [<- | [<- | [<- | []]]]; intros D; (reflexivity || discriminate D).
  - intros f [<- | [<- | []]]; repeat split; discriminate.
  - exists ws. split; [ exact E | exact M ].
Defined.

(** X18. The loop of [generate_compressed_samples] can be ended early in
    three ways only: an entry that is not a directory and cannot be
    opened for reading, a Zstd failure on a regular file (empty ones
    included: there is no shortcut for them here), or an output file that
    cannot be written. *)
Theorem synthetic_samples_failure (P : platform) (cs : codecs)
    (download_dir : listing) (e : scan_error) :
  generate_compressed_samples P cs download_dir = inl e ->
  (e = FileError /\
   exists x, In x download_dir /\ isdir (snd x) = false /\ opens (snd x) = false) \/
  (e = CodecError ZstdError /\
   exists f, In f (regular_files download_dir) /\ zstd_compress cs 3 (snd f) = None) \/
  (e = FileError /\
   exists f, In f (regular_files download_dir) /\
             create_ok P (fst f ++ literal ".zst") = false).
Proof. apply generate_loop_failure. Qed.

Lemma synthetic_samples_failure_witness :
  generate_compressed_samples permissive zstd_failing_codecs
    [(literal "empty", RegularFile true [])] = inl (CodecError ZstdError) /\
  exists f, In f (regular_files [(literal "empty", RegularFile true [])]) /\
            zstd_compress zstd_failing_codecs 3 (snd f) = None.
Proof.
  assert (H : generate_compressed_samples permissive zstd_failing_codecs
                [(literal "empty", RegularFile true [])] = inl (CodecError ZstdError))
    by reflexivity.
  split; [ exact H | ].
  destruct (synthetic_samples_failure _ _ _ _ H) as [(E & _) | [(_ & Q) | (E & _)]];
    [ discriminate E | exact Q | discriminate E ].
Defined.

(** X19. The two scanning loops of train_silesia.py complete when every
    entry of the download directory that is not a directory, and every
    entry of the extra directory, is a readable regular file, Zstd
    succeeds on the non-empty ones and the first ten characters of every
    name can be printed.  The data set then has one label per feature
    row: first one row per regular file of the download directory, then
    one row per entry of the extra directory, each in listing order; and
    the row of an entry of the extra directory whose name ends in [.zst]
    carries the hint [MEDIA]. *)
Theorem scan_silesia_aligned (P : platform) (U : unicode) (cs : codecs) (dir : str)
    (download_dir synthetic_dir : listing) :
  (forall e, In e download_dir -> isdir (snd e) = false -> opens (snd e) = true) ->
  (forall e, In e synthetic_dir -> opens (snd e) = true) ->
  (forall f, In f (regular_files download_dir ++ regular_files synthetic_dir) ->
             (snd f = [] \/ zstd_compress cs 3 (snd f) <> None) /\
             print_ok P (firstn 10 (fst f)) = true) ->
  exists st original_rows synthetic_rows,
    scan_silesia P U cs dir download_dir synthetic_dir = inr st /\
    features st = original_rows ++ synthetic_rows /\
    List.length (labels st) = List.length (features st) /\
    List.length synthetic_rows = List.length synthetic_dir /\
    Forall2 (fun f row => extract_features U (path_join dir (fst f)) (snd f) = Some row)
      (regular_files download_dir) original_rows /\
    Forall2 (fun f row =>
               extract_features U
                 (path_join (path_join dir (literal "synthetic_compressed")) (fst f))
                 (snd f) = Some row /\
               (has_char "/" (fst f) = false ->
                endswith (lower U (fst f)) (literal ".zst") = true ->
                nth 2 row 0%R = IZR MEDIA))
      (regular_files synthetic_dir) synthetic_rows /\
    Forall2 (fun f lab => fst (run (get_best_label cs (snd f))) = Ok lab)
      (regular_files download_dir ++ regular_files synthetic_dir) (labels st).
Proof.
  intros R1 R2 H. unfold scan_silesia.
  destruct (scan_loop_silesia P U cs dir true download_dir empty_scan)
    as (rows1 & ls1 & ws1 & E1 & A1 & B1 & C1).
  { intros e I D. apply R1; [ exact I | ]. destruct (isdir (snd e)); [ discriminate D | reflexivity ]. }
  { intros f I. apply H. apply in_or_app. now left. }
  rewrite E1. cbn [features labels winners calls empty_scan app].
  destruct (scan_loop_silesia P U cs (path_join dir (literal "synthetic_compressed")) false
              synthetic_dir
              {| features := rows1; labels := ls1; winners := ws1;
                 calls := flat_map (fun f => race_calls 4 (snd f))
                            (regular_files download_dir) |})
    as (rows2 & ls2 & ws2 & E2 & A2 & B2 & C2).
  { intros e I _. now apply R2. }
  { intros f I. apply H. apply in_or_app. now right. }
  rewrite E2. cbn [features labels winners calls].
  eexists. exists rows1, rows2. split; [ reflexivity | ].
  cbn [features labels].
  pose proof (Forall2_length A1) as L1. pose proof (Forall2_length B1) as L1'.
  pose proof (Forall2_length A2) as L2. pose proof (Forall2_length B2) as L2'.
  pose proof (regular_files_all synthetic_dir R2) as LS.
  split; [ reflexivity | ].
  split; [ rewrite !List.length_app; lia | ].
  split; [ lia | ].
  split; [ exact A1 | ].
  split; [ | now apply Forall2_app ].
  clear - A2. induction A2 as [ | f row fs rows Hrow _ IH]; constructor; [ | exact IH ].
  split; [ exact Hrow | ]. intros S Z.
  destruct (extract_features_layout U
              (path_join (path_join dir (literal "synthetic_compressed")) (fst f)) (snd f))
    as (c & _ & F).
  rewrite F in Hrow. injection Hrow as <-. cbn [nth]. f_equal.
  apply hint_silesia_media. left. now rewrite basename_path_join.
Qed.

Lemma scan_silesia_aligned_witness :
  exists st,
    scan_silesia permissive unicode_fragment identity_codecs (literal "dataset/silesia")
      [(literal "dickens", RegularFile true [x61; x62]);
       (literal "synthetic_compressed", Directory);
       (literal "mr", RegularFile true [x63])]
      [(literal "mr.zst", RegularFile true [x63]);
       (literal "dickens.zst", RegularFile true [x61; x62])] = inr st /\
    List.length (labels st) = List.length (features st) /\
    List.length (features st) = 4%nat.
Proof.
  destruct (scan_silesia_aligned permissive unicode_fragment identity_codecs
              (literal "dataset/silesia")
              [(literal "dickens", RegularFile true [x61; x62]);
               (literal "synthetic_compressed", Directory);
               (literal "mr", RegularFile true [x63])]
              [(literal "mr.zst", RegularFile true [x63]);
               (literal "dickens.zst", RegularFile true [x61; x62])])
    as (st & r1 & r2 & E & F & L1 & L2 & A1 & _).
  - intros e [<- | [<- | [<- | []]]]; intros D; (reflexivity || discriminate D).
  - intros e [<- | [<- | []]]; reflexivity.
  - intros f _. split; [ right; discriminate | reflexivity ].
  - exists st. split; [ exact E | ]. split; [ exact L1 | ].
    pose proof (Forall2_length A1) as LA. cbn in LA, L2.
    rewrite F, List.length_app. lia.
Defined.

End ScanProperties.
